(** * OpsOrch Elasticsearch log adapter: query builder, hit normalizer,
      provider construction and the plugin transport loop.

    The development follows the two Go packages of the repository:
    - package [log] (elastic_provider.go): [parseConfig], [New],
      [buildQuery], [buildFilterClause], [normalizeHit], [Query];
    - package [main] (cmd/logplugin/main.go): [ensureProvider], [write],
      [writeErr] and the read-dispatch-write loop of [main].

    Go maps are stdpp [gmap]s.  The order in which a Go [range] statement
    visits a map is chosen by the runtime, so every loop over a map takes
    the visiting order as an explicit list; [rangeOrder] says which lists
    the runtime may choose. *)

From stdpp Require Import gmap strings list fin_maps.
From Stdlib Require Import ZArith.

Set Warnings "-register-all".
Local Open Scope string_scope.
Local Open Scope Z_scope.
Local Open Scope list_scope.

(** ** Go values *)

(** Dynamic values held in a Go [any]: the shapes that encoding/json
    produces when decoding, plus the typed slices and maps the adapter
    itself stores into a query document.  A float64 is kept as its bit
    pattern; it is only ever copied. *)
Inductive any : Type :=
| VNil
| VBool (b : bool)
| VInt (n : Z)
| VFloat (bits : Z)
| VString (s : string)
| VSlice (l : list any)
| VStrings (l : list string)
| VMaps (l : list (gmap string any))
| VMap (m : gmap string any).

(** Go errors: the sentinel [io.EOF], [errors.New]/[fmt.Errorf] without
    [%w] (an [*errorString]) and [fmt.Errorf] with [%w] (a [*wrapError]
    that keeps the wrapped error). *)
Inductive error : Type :=
| io_EOF
| errorString (s : string)
| wrapError (msg : string) (err : error).

(** [err.Error()]. *)
Definition Error (err : error) : string :=
  match err with
  | io_EOF => "EOF"
  | errorString s => s
  | wrapError msg _ => msg
  end.

Definition errors_New (text : string) : error := errorString text.

(** [fmt.Errorf(prefix + "%w", err)]. *)
Definition fmt_Errorf_w (prefix : string) (err : error) : error :=
  wrapError (String.append prefix (Error err)) err.

(** [errors.Is(err, io.EOF)]: walks the chain of wrapped errors. *)
Fixpoint errors_Is_EOF (err : error) : bool :=
  match err with
  | io_EOF => true
  | errorString _ => false
  | wrapError _ inner => errors_Is_EOF inner
  end.

(** [time.Time], as seconds and nanoseconds since the zero instant
    (January 1, year 1, 00:00:00 UTC). *)
Record Time : Type := { sec : Z; nsec : Z }.

Definition zeroTime : Time := {| sec := 0; nsec := 0 |}.

Definition IsZero (t : Time) : bool := (sec t =? 0) && (nsec t =? 0).

(** The visiting orders a [range] over map [m] may take: every entry
    exactly once, in an order the language leaves unspecified and that
    may differ from one loop to the next. *)
Definition rangeOrder {V : Type} (m : gmap string V) (ord : list (string * V)) : Prop :=
  ord ≡ₚ map_to_list m.

(** ** Package schema (opsorch-core) *)

(** Modelled from the spec: the struct declarations of opsorch-core's
    schema package are not part of this repository; the fields are the
    ones the adapter reads and writes (spec section 3). *)
Module schema.

Record LogFilter : Type := {
  Field : string;
  Operator : string;
  Value : string
}.

Record LogExpression : Type := {
  Search : string;
  SeverityIn : list string;
  Filters : list LogFilter
}.

Record QueryScope : Type := {
  Service : string;
  Environment : string;
  Team : string
}.

Record LogQuery : Type := {
  Start : Time;
  End_ : Time;
  Expression : option LogExpression;
  Scope : QueryScope;
  Metadata : gmap string any;
  Limit : Z
}.

Module LogEntry.
Record LogEntry : Type := {
  Timestamp : Time;
  Message : string;
  Severity : string;
  Service : string;
  Labels : gmap string string;
  Fields : gmap string any;
  Metadata : gmap string any
}.
End LogEntry.

End schema.

(** ** Package elasticsearch (go-elasticsearch client) *)

Module elasticsearch.

(** The fields of [elasticsearch.Config] that [New] fills in. *)
Record Config : Type := {
  CloudID : string;
  Addresses : list string;
  APIKey : string;
  Username : string;
  Password : string
}.

(** What the adapter looks at in an [*esapi.Response]. *)
Record Response : Type := {
  IsError : bool;
  String : string;
  Body : string
}.

End elasticsearch.

(** ** Package log (this adapter): data types *)

(** [Config] captures decrypted configuration from OpsOrch Core. *)
Record Config : Type := {
  Addresses : list string;
  Username : string;
  Password : string;
  APIKey : string;
  CloudID : string;
  IndexPattern : string
}.

(** One element of [hits.hits] in an Elasticsearch response. *)
Record esHit : Type := {
  Index : string;
  ID : string;
  Score : Z;
  Source : gmap string any
}.

(** ** Package main (cmd/logplugin): wire records *)

Module plugin.

Record rpcRequest : Type := {
  Method : string;
  Config : gmap string any;
  Payload : string
}.

(** [Result] is [None] when the field is left at its zero value. *)
Record rpcResponse : Type := {
  Result : option (list schema.LogEntry.LogEntry);
  Error : string
}.

End plugin.

(** ** External collaborators *)

(** Everything the adapter calls but does not implement.  [World] is the
    state outside the process (the backend, the network, the runtime's
    random choices); calls that perform I/O pass it along. *)
Class Runtime : Type := {
  World : Type;
  Client : Type;
  (* t.Format(time.RFC3339) and time.Parse(time.RFC3339, s) *)
  time_Format : Time → string;
  time_Parse : string → option Time;
  (* json.Marshal of a query document; json.Unmarshal of a payload *)
  json_Marshal : gmap string any → error + string;
  json_Unmarshal_LogQuery : string → error + schema.LogQuery;
  (* json.NewDecoder(body).Decode(&esSearchResponse): the hits.hits array *)
  json_Decode_esSearchResponse : string → error + list esHit;
  (* the runtime's choice of a visiting order for a map *)
  mapRange : gmap string any → World → list (string * any) * World;
  (* elasticsearch.NewClient, client.Ping, client.Search *)
  NewClient : elasticsearch.Config → World → (error + Client) * World;
  Ping : Client → World → (error + elasticsearch.Response) * World;
  Search : Client → string → string → World → (error + elasticsearch.Response) * World
}.

(** ** Package log: the provider *)

Section Provider.
Context `{rt : Runtime}.

(** Computations that touch the world. *)
Definition IO (A : Type) : Type := World → A * World.

(** [ElasticProvider] implements the log.Provider interface. *)
Record ElasticProvider : Type := {
  cfg : Config;
  client : Client
}.

(** [parseConfig]: the loop over [cfg["addresses"].([]any)] keeps the
    string elements in order. *)
Definition parseAddresses (addrs : list any) : list string :=
  fold_left
    (fun out addr => match addr with VString strAddr => out ++ [strAddr] | _ => out end)
    addrs [].

(** [cfg[key].(string)], falling back to the value already in place. *)
Definition stringField (cfg : gmap string any) (key : string) (old : string) : string :=
  match cfg !! key with
  | Some (VString v) => v
  | _ => old
  end.

Definition parseConfig (cfg : gmap string any) : Config :=
  let addresses :=
    match cfg !! "addresses" with
    | Some (VSlice addrs) => parseAddresses addrs
    | _ => []
    end in
  let indexPattern :=
    match cfg !! "indexPattern" with
    | Some (VString v) => if bool_decide (v ≠ "") then v else "logs-*"
    | _ => "logs-*"
    end in
  {| Addresses := addresses;
     Username := stringField cfg "username" "";
     Password := stringField cfg "password" "";
     APIKey := stringField cfg "apiKey" "";
     CloudID := stringField cfg "cloudID" "";
     IndexPattern := indexPattern |}.

(** The error [New] returns when validation fails. *)
Definition configError : error :=
  errors_New "either 'addresses' or 'cloudID' must be provided".

(** [New], after validation: the client configuration.  The cloud id
    takes the place of the address list, and the API key the place of
    user name and password. *)
Definition clientConfig (parsed : Config) : elasticsearch.Config :=
  let useCloud := bool_decide (CloudID parsed ≠ "") in
  let useKey := bool_decide (APIKey parsed ≠ "") in
  let useBasic := bool_decide (Username parsed ≠ "") || bool_decide (Password parsed ≠ "") in
  {| elasticsearch.CloudID := if useCloud then CloudID parsed else "";
     elasticsearch.Addresses := if useCloud then [] else Addresses parsed;
     elasticsearch.APIKey := if useKey then APIKey parsed else "";
     elasticsearch.Username :=
       if useKey then "" else if useBasic then Username parsed else "";
     elasticsearch.Password :=
       if useKey then "" else if useBasic then Password parsed else "" |}.

(** [New], after validation: client creation, then the ping. *)
Definition connect (parsed : Config) : IO (error + ElasticProvider) :=
  fun w =>
    match NewClient (clientConfig parsed) w with
    | (inl err, w) => (inl (fmt_Errorf_w "failed to create Elasticsearch client: " err), w)
    | (inr client, w) =>
        match Ping client w with
        | (inl err, w) => (inl (fmt_Errorf_w "failed to connect to Elasticsearch: " err), w)
        | (inr _, w) => (inr {| cfg := parsed; client := client |}, w)
        end
    end.

(** [New] constructs the provider from decrypted config. *)
Definition New (cfg : gmap string any) : IO (error + ElasticProvider) :=
  fun w =>
    let parsed := parseConfig cfg in
    if (length (Addresses parsed) =? 0)%nat && bool_decide (CloudID parsed = "")
    then (inl configError, w)
    else connect parsed w.

(** [buildFilterClause] converts a LogFilter to an Elasticsearch clause;
    [None] is the nil map of the default case. *)
Definition buildFilterClause (filter : schema.LogFilter) : option (gmap string any) :=
  let op := schema.Operator filter in
  if bool_decide (op = "=") then
    Some {[ "term" := VMap {[ schema.Field filter := VString (schema.Value filter) ]} ]}
  else if bool_decide (op = "!=") then
    Some {[ "bool" := VMap {[ "must_not" := VMap
      {[ "term" := VMap {[ schema.Field filter := VString (schema.Value filter) ]} ]} ]} ]}
  else if bool_decide (op = "contains") then
    Some {[ "wildcard" := VMap {[ schema.Field filter := VMap
      {[ "value" := VString (String.append "*" (String.append (schema.Value filter) "*")) ]} ]} ]}
  else if bool_decide (op = "regex") then
    Some {[ "regexp" := VMap {[ schema.Field filter := VMap
      {[ "value" := VString (schema.Value filter) ]} ]} ]}
  else None.

(** [if cond { mustClauses = append(mustClauses, clause) }]. *)
Definition appendIf (cond : bool) (clause : gmap string any)
    (mustClauses : list (gmap string any)) : list (gmap string any) :=
  if cond then mustClauses ++ [clause] else mustClauses.

(** The [mustClauses] slice of [buildQuery] once all appends are done.
    [ord] is the order in which [range query.Metadata] yields entries. *)
Definition mustClauses (ord : list (string * any)) (query : schema.LogQuery)
  : list (gmap string any) :=
  let mustClauses : list (gmap string any) := [] in
  (* Time range filter *)
  let mustClauses :=
    let timestamp : gmap string any := ∅ in
    let timestamp :=
      if negb (IsZero (schema.Start query))
      then <["gte" := VString (time_Format (schema.Start query))]> timestamp
      else timestamp in
    let timestamp :=
      if negb (IsZero (schema.End_ query))
      then <["lte" := VString (time_Format (schema.End_ query))]> timestamp
      else timestamp in
    appendIf (negb (IsZero (schema.Start query)) || negb (IsZero (schema.End_ query)))
      {[ "range" := VMap {[ "@timestamp" := VMap timestamp ]} ]}
      mustClauses in
  (* Expression filters *)
  let mustClauses :=
    match schema.Expression query with
    | None => mustClauses
    | Some expression =>
        (* Full-text search *)
        let mustClauses :=
          appendIf (bool_decide (schema.Search expression ≠ ""))
            {[ "query_string" := VMap {[ "query" := VString (schema.Search expression) ]} ]}
            mustClauses in
        (* Severity filter *)
        let mustClauses :=
          appendIf (0 <? length (schema.SeverityIn expression))%nat
            {[ "terms" := VMap {[ "severity" := VStrings (schema.SeverityIn expression) ]} ]}
            mustClauses in
        (* Structured filters *)
        fold_left
          (fun mustClauses filter =>
             match buildFilterClause filter with
             | Some clause => mustClauses ++ [clause]
             | None => mustClauses
             end)
          (schema.Filters expression) mustClauses
    end in
  (* Scope filters *)
  let mustClauses :=
    appendIf (bool_decide (schema.Service (schema.Scope query) ≠ ""))
      {[ "term" := VMap {[ "service" := VString (schema.Service (schema.Scope query)) ]} ]}
      mustClauses in
  let mustClauses :=
    appendIf (bool_decide (schema.Environment (schema.Scope query) ≠ ""))
      {[ "term" := VMap {[ "environment" := VString (schema.Environment (schema.Scope query)) ]} ]}
      mustClauses in
  let mustClauses :=
    appendIf (bool_decide (schema.Team (schema.Scope query) ≠ ""))
      {[ "term" := VMap {[ "team" := VString (schema.Team (schema.Scope query)) ]} ]}
      mustClauses in
  (* Metadata filters *)
  fold_left
    (fun mustClauses '(key, value) =>
       mustClauses ++ [ {[ "term" := VMap {[ key := value ]} ]} ])
    ord mustClauses.

(** [buildQuery] constructs an Elasticsearch query DSL from LogQuery. *)
Definition buildQuery (ord : list (string * any)) (query : schema.LogQuery)
  : gmap string any :=
  let esQuery : gmap string any :=
    {[ "query" := VMap {[ "bool" := VMap {[ "must" := VMaps (mustClauses ord query) ]} ]};
       "sort" := VMaps [ {[ "@timestamp" := VMap {[ "order" := VString "desc" ]} ]} ] ]} in
  if 0 <? schema.Limit query
  then <["size" := VInt (schema.Limit query)]> esQuery
  else <["size" := VInt 1000]> esQuery.

(** The test that makes both loops of [normalizeHit] skip a key. *)
Definition skipped (key : string) : bool :=
  bool_decide (key = "@timestamp") || bool_decide (key = "message")
  || bool_decide (key = "severity") || bool_decide (key = "level")
  || bool_decide (key = "service").

(** [source[key].(string)] with the zero value when the assertion fails. *)
Definition sourceString (source : gmap string any) (key : string) : option string :=
  match source !! key with
  | Some (VString s) => Some s
  | _ => None
  end.

(** [normalizeHit] converts an Elasticsearch hit to a schema.LogEntry.
    [labelOrd] and [fieldOrd] are the orders in which the first and the
    second [range source] loop yield the entries. *)
Definition normalizeHit (labelOrd fieldOrd : list (string * any)) (hit : esHit)
  : schema.LogEntry.LogEntry :=
  let source := Source hit in
  let metadata : gmap string any :=
    {[ "_index" := VString (Index hit);
       "_id" := VString (ID hit);
       "_score" := VFloat (Score hit) ]} in
  let timestamp :=
    match sourceString source "@timestamp" with
    | Some ts => match time_Parse ts with Some parsed => parsed | None => zeroTime end
    | None => zeroTime
    end in
  let message :=
    match sourceString source "message" with Some msg => msg | None => "" end in
  let severity :=
    match sourceString source "severity" with
    | Some sev => sev
    | None => match sourceString source "level" with Some level => level | None => "" end
    end in
  let service :=
    match sourceString source "service" with Some svc => svc | None => "" end in
  let labels : gmap string string :=
    fold_left
      (fun labels '(key, value) =>
         if skipped key then labels
         else match value with
              | VString strVal => <[key := strVal]> labels
              | _ => labels
              end)
      labelOrd ∅ in
  let fields : gmap string any :=
    fold_left
      (fun fields '(key, value) =>
         if skipped key then fields else <[key := value]> fields)
      fieldOrd ∅ in
  {| schema.LogEntry.Timestamp := timestamp;
     schema.LogEntry.Message := message;
     schema.LogEntry.Severity := severity;
     schema.LogEntry.Service := service;
     schema.LogEntry.Labels := labels;
     schema.LogEntry.Fields := fields;
     schema.LogEntry.Metadata := metadata |}.

(** The normalizing loop at the end of [Query]; each call of
    [normalizeHit] ranges over the hit's source twice. *)
Fixpoint normalizeHits (hits : list esHit) (entries : list schema.LogEntry.LogEntry)
  : IO (list schema.LogEntry.LogEntry) :=
  fun w =>
    match hits with
    | [] => (entries, w)
    | hit :: hits =>
        let '(labelOrd, w) := mapRange (Source hit) w in
        let '(fieldOrd, w) := mapRange (Source hit) w in
        normalizeHits hits (entries ++ [normalizeHit labelOrd fieldOrd hit]) w
    end.

(** [Query] executes a log query against Elasticsearch and returns
    normalized log entries. *)
Definition Query (p : ElasticProvider) (query : schema.LogQuery)
  : IO (error + list schema.LogEntry.LogEntry) :=
  fun w =>
    let '(ord, w) := mapRange (schema.Metadata query) w in
    let esQuery := buildQuery ord query in
    match json_Marshal esQuery with
    | inl err => (inl (fmt_Errorf_w "failed to marshal query: " err), w)
    | inr queryBody =>
        match Search (client p) (IndexPattern (cfg p)) queryBody w with
        | (inl err, w) => (inl (fmt_Errorf_w "elasticsearch query failed: " err), w)
        | (inr res, w) =>
            if elasticsearch.IsError res
            then (inl (errorString (String.append "elasticsearch returned error: "
                                                  (elasticsearch.String res))), w)
            else
              match json_Decode_esSearchResponse (elasticsearch.Body res) with
              | inl err => (inl (fmt_Errorf_w "failed to parse response: " err), w)
              | inr hits =>
                  let '(entries, w) := normalizeHits hits [] w in
                  (inr entries, w)
              end
        end
    end.

(** ** Package main: the transport loop *)

(** The process state the loop works on: the package-level [provider]
    variable ([None] is nil), the records handed to the encoder on
    standard output so far, and the world. *)
Record state : Type := {
  provider : option ElasticProvider;
  stdout : list plugin.rpcResponse;
  world : World
}.

Definition setWorld (st : state) (w : World) : state :=
  {| provider := provider st; stdout := stdout st; world := w |}.

Definition encode (resp : plugin.rpcResponse) (st : state) : state :=
  {| provider := provider st; stdout := stdout st ++ [resp]; world := world st |}.

Definition writeErr (err : error) (st : state) : state :=
  encode {| plugin.Result := None; plugin.Error := Error err |} st.

Definition write (res : error + list schema.LogEntry.LogEntry) (st : state) : state :=
  match res with
  | inl err => writeErr err st
  | inr result => encode {| plugin.Result := Some result; plugin.Error := "" |} st
  end.

Definition ensureProvider (cfg : gmap string any) (st : state)
  : (error + ElasticProvider) * state :=
  match provider st with
  | Some prov => (inr prov, st)
  | None =>
      match New cfg (world st) with
      | (inl err, w) => (inl err, setWorld st w)
      | (inr prov, w) =>
          (inr prov, {| provider := Some prov; stdout := stdout st; world := w |})
      end
  end.

(** One turn of the loop of [main], from a decoded request to the
    [continue] or the end of the loop body. *)
Definition serve (req : plugin.rpcRequest) (st : state) : state :=
  match ensureProvider (plugin.Config req) st with
  | (inl err, st) => writeErr err st
  | (inr prov, st) =>
      if bool_decide (plugin.Method req = "log.query") then
        match json_Unmarshal_LogQuery (plugin.Payload req) with
        | inl err => writeErr err st
        | inr query =>
            let '(res, w) := Query prov query (world st) in
            write res (setWorld st w)
        end
      else
        writeErr (errorString (String.append "unknown method: " (plugin.Method req))) st
  end.

(** [main].  [stdin] lists what the successive calls of [dec.Decode]
    return: a decoded request or an error; once the list is used up the
    stream has ended and [Decode] returns [io.EOF]. *)
Fixpoint main (stdin : list (error + plugin.rpcRequest)) (st : state) : state :=
  match stdin with
  | [] => st
  | inl err :: _ => if errors_Is_EOF err then st else writeErr err st
  | inr req :: stdin => main stdin (serve req st)
  end.

(** ** The clause groups of the query builder, in the specification's words

    Each group is the list of clauses one rule of the query builder
    contributes: empty when the rule does not apply. *)

Definition operators : list string := ["="; "!="; "contains"; "regex"].

Definition timeBound (key : string) (t : Time) : gmap string any :=
  if IsZero t then ∅ else {[ key := VString (time_Format t) ]}.

Definition timeRangeClauses (query : schema.LogQuery) : list (gmap string any) :=
  if IsZero (schema.Start query) && IsZero (schema.End_ query) then []
  else [ {[ "range" := VMap {[ "@timestamp" :=
           VMap (timeBound "gte" (schema.Start query) ∪ timeBound "lte" (schema.End_ query)) ]} ]} ].

Definition searchClauses (query : schema.LogQuery) : list (gmap string any) :=
  match schema.Expression query with
  | Some expression =>
      if bool_decide (schema.Search expression = "") then []
      else [ {[ "query_string" := VMap {[ "query" := VString (schema.Search expression) ]} ]} ]
  | None => []
  end.

Definition severityClauses (query : schema.LogQuery) : list (gmap string any) :=
  match schema.Expression query with
  | Some expression =>
      match schema.SeverityIn expression with
      | [] => []
      | severities => [ {[ "terms" := VMap {[ "severity" := VStrings severities ]} ]} ]
      end
  | None => []
  end.

Definition filterClauses (query : schema.LogQuery) : list (gmap string any) :=
  match schema.Expression query with
  | Some expression => omap buildFilterClause (schema.Filters expression)
  | None => []
  end.

Definition termClause (kv : string * any) : gmap string any :=
  {[ "term" := VMap {[ kv.1 := kv.2 ]} ]}.

Definition scopeClause (key value : string) : list (gmap string any) :=
  if bool_decide (value = "") then [] else [ termClause (key, VString value) ].

Definition scopeClauses (query : schema.LogQuery) : list (gmap string any) :=
  scopeClause "service" (schema.Service (schema.Scope query))
  ++ scopeClause "environment" (schema.Environment (schema.Scope query))
  ++ scopeClause "team" (schema.Team (schema.Scope query)).

Definition metadataClauses (ord : list (string * any)) : list (gmap string any) :=
  termClause <$> ord.

(** The request [req] carrying the config [cfg] instead of its own. *)
Definition withConfig (cfg : gmap string any) (req : plugin.rpcRequest)
  : plugin.rpcRequest :=
  {| plugin.Method := plugin.Method req;
     plugin.Config := cfg;
     plugin.Payload := plugin.Payload req |}.

(** The input stream with the config of every request replaced by the
    one [f] picks for it. *)
Definition reconfigure (f : plugin.rpcRequest → gmap string any)
    (stdin : list (error + plugin.rpcRequest)) : list (error + plugin.rpcRequest) :=
  sum_map id (fun req => withConfig (f req) req) <$> stdin.

(** ** The field names of the result normalizer, in the specification's words *)

(** The names both loops of [normalizeHit] leave out. *)
Definition skippedNames : list string :=
  ["@timestamp"; "message"; "severity"; "level"; "service"].

(** The four names of the promoted attributes: timestamp, message,
    severity and service. *)
Definition promotedNames : list string :=
  ["@timestamp"; "message"; "severity"; "service"].

(** The query with the filter list of its expression replaced. *)
Definition withFilters (query : schema.LogQuery) (filters : list schema.LogFilter)
  : schema.LogQuery :=
  {| schema.Start := schema.Start query;
     schema.End_ := schema.End_ query;
     schema.Expression :=
       match schema.Expression query with
       | Some expression =>
           Some {| schema.Search := schema.Search expression;
                   schema.SeverityIn := schema.SeverityIn expression;
                   schema.Filters := filters |}
       | None => None
       end;
     schema.Scope := schema.Scope query;
     schema.Metadata := schema.Metadata query;
     schema.Limit := schema.Limit query |}.

End Provider.

(** ** A small closed world, for running the definitions

    A backend that accepts every client configuration, answers the ping
    unless the client points at [http://down:9200], and returns one fixed
    hit for every search.  The world counts the round trips made. *)

Definition demoHit : esHit :=
  {| Index := "logs-2023.10.01"; ID := "abc123"; Score := 0;
     Source := {[ "@timestamp" := VString "2023-10-01T12:00:00Z";
                  "message" := VString "Test log message";
                  "level" := VString "warn";
                  "environment" := VString "production";
                  "status" := VInt 500 ]} |}.

Definition demoResponse : elasticsearch.Response :=
  {| elasticsearch.IsError := false; elasticsearch.String := "[200 OK]";
     elasticsearch.Body := "hits" |}.

Definition emptyQuery : schema.LogQuery :=
  {| schema.Start := zeroTime; schema.End_ := zeroTime;
     schema.Expression := None;
     schema.Scope := {| schema.Service := ""; schema.Environment := ""; schema.Team := "" |};
     schema.Metadata := ∅;
     schema.Limit := 0 |}.

Definition demoRuntime : Runtime :=
  {| World := nat;
     Client := elasticsearch.Config;
     time_Format := fun _ => "2023-10-01T12:00:00Z";
     time_Parse := fun s =>
       if bool_decide (s = "2023-10-01T12:00:00Z")
       then Some {| sec := 63831758400; nsec := 0 |} else None;
     json_Marshal := fun _ => inr "{}";
     json_Unmarshal_LogQuery := fun payload =>
       if bool_decide (payload = "{}") then inr emptyQuery
       else inl (errorString "invalid character");
     json_Decode_esSearchResponse := fun body =>
       if bool_decide (body = "hits") then inr [demoHit]
       else inl (errorString "unexpected end of JSON input");
     mapRange := fun m w => (map_to_list m, w);
     NewClient := fun c w => (inr c, w);
     Ping := fun c w =>
       (if bool_decide (elasticsearch.Addresses c = ["http://down:9200"])
        then inl (errorString "connection refused")
        else inr demoResponse, S w);
     Search := fun _ _ _ w => (inr demoResponse, S w) |}.

(** A config that sets every field at once. *)
Definition demoConfig : gmap string any :=
  {[ "addresses" := VSlice [VInt 9200; VString "http://localhost:9200"];
     "apiKey" := VString "id:key";
     "username" := VString "elastic";
     "password" := VString "changeme" ]}.

(** A config whose only address is not reachable. *)
Definition downConfig : gmap string any :=
  {[ "addresses" := VSlice [VString "http://down:9200"] ]}.

(** The transport scenario: a query request with a valid config, a
    request for a method that does not exist with an empty config, and
    the state of a process that has just started. *)
Definition demoRequest : plugin.rpcRequest :=
  {| plugin.Method := "log.query"; plugin.Config := demoConfig; plugin.Payload := "{}" |}.

Definition strayRequest : plugin.rpcRequest :=
  {| plugin.Method := "log.tail"; plugin.Config := ∅; plugin.Payload := "{}" |}.

(** A record that carries both a severity and a level. *)
Definition levelHit : esHit :=
  {| Index := "logs-2023.10.02"; ID := "def456"; Score := 0;
     Source := {[ "severity" := VString "error";
                  "level" := VString "warn";
                  "host" := VString "web-1" ]} |}.

(** The closed world before any round trip, and a process that has just
    started in it. *)
Definition bootWorld : @World demoRuntime := 0%nat.

Definition bootState : @state demoRuntime :=
  {| provider := None; stdout := []; world := bootWorld |}.

(** A query that exercises every rule of the query builder. *)
Definition demoQuery : schema.LogQuery :=
  {| schema.Start := {| sec := 63831758400; nsec := 0 |};
     schema.End_ := zeroTime;
     schema.Expression := Some
       {| schema.Search := "error OR warning";
          schema.SeverityIn := ["error"; "critical"];
          schema.Filters :=
            [ {| schema.Field := "status"; schema.Operator := "="; schema.Value := "500" |};
              {| schema.Field := "url"; schema.Operator := "~"; schema.Value := "/api" |};
              {| schema.Field := "message"; schema.Operator := "contains"; schema.Value := "boom" |} ] |};
     schema.Scope := {| schema.Service := "api"; schema.Environment := ""; schema.Team := "core" |};
     schema.Metadata := {[ "region" := VString "eu"; "shard" := VInt 7 ]};
     schema.Limit := 3 |}.

Definition demoOrder : list (string * any) :=
  [("shard", VInt 7); ("region", VString "eu")].

Definition demoOrderRev : list (string * any) :=
  [("region", VString "eu"); ("shard", VInt 7)].

(** ** Names and helpers for the further properties *)

(** The keys [parseConfig] looks up. *)
Definition knownConfigKeys : list string :=
  ["addresses"; "username"; "password"; "apiKey"; "cloudID"; "indexPattern"].


(** An expression that asks for nothing. *)
Definition emptyExpression : schema.LogExpression :=
  {| schema.Search := ""; schema.SeverityIn := []; schema.Filters := [] |}.

(** The query with its expression replaced. *)
Definition withExpression (query : schema.LogQuery)
    (expression : option schema.LogExpression) : schema.LogQuery :=
  {| schema.Start := schema.Start query;
     schema.End_ := schema.End_ query;
     schema.Expression := expression;
     schema.Scope := schema.Scope query;
     schema.Metadata := schema.Metadata query;
     schema.Limit := schema.Limit query |}.

(** What the query builder reads of an expression: the search text, the
    severities and the filters with a known operator. *)
Definition effectiveExpression (query : schema.LogQuery) : schema.LogExpression :=
  match schema.Expression query with
  | Some expression =>
      {| schema.Search := schema.Search expression;
         schema.SeverityIn := schema.SeverityIn expression;
         schema.Filters :=
           filter (fun f => schema.Operator f ∈ operators) (schema.Filters expression) |}
  | None => emptyExpression
  end.

(** The filters of a query, none when it has no expression. *)
Definition queryFilters (query : schema.LogQuery) : list schema.LogFilter :=
  match schema.Expression query with
  | Some expression => schema.Filters expression
  | None => []
  end.

(** The hit with another source document. *)
Definition withSource (source : gmap string any) (hit : esHit) : esHit :=
  {| Index := Index hit; ID := ID hit; Score := Score hit; Source := source |}.

(** Whether a dynamic value is a Go string. *)
Definition isString (value : any) : bool :=
  match value with VString _ => true | _ => false end.

(** The keys of the provenance metadata of a normalized entry. *)
Definition provenanceKeys : gset string := {[ "_index"; "_id"; "_score" ]}.

(** The keys of a built query document. *)
Definition documentKeys : gset string := {[ "query"; "sort"; "size" ]}.

(** A response never carries both a result and an error text. *)
Definition wellFormed (resp : plugin.rpcResponse) : Prop :=
  plugin.Result resp = None ∨ plugin.Error resp = "".

(** The runtime visits every map it ranges over entry by entry. *)
Definition faithfulRange `{rt : Runtime} : Prop :=
  ∀ (m : gmap string any) (w : World), rangeOrder m (mapRange m w).1.

(** The entry of a hit, with the source visited in the order of
    [map_to_list]. *)
Definition normalized `{rt : Runtime} (hit : esHit) : schema.LogEntry.LogEntry :=
  normalizeHit (map_to_list (Source hit)) (map_to_list (Source hit)) hit.

(** The response [writeErr] encodes for an error. *)
Definition errorResponse (err : error) : plugin.rpcResponse :=
  {| plugin.Result := None; plugin.Error := Error err |}.

(** A request the loop turns down before any query is run: its method is
    not "log.query", or its payload does not decode. *)
Definition turnedDown `{rt : Runtime} (req : plugin.rpcRequest) : Prop :=
  plugin.Method req ≠ "log.query"
  ∨ ∃ err, json_Unmarshal_LogQuery (plugin.Payload req) = inl err.

(** The closed world with a backend that answers every search with an
    error status. *)
Definition failingRuntime : Runtime :=
  {| World := nat;
     Client := elasticsearch.Config;
     time_Format := @time_Format demoRuntime;
     time_Parse := @time_Parse demoRuntime;
     json_Marshal := @json_Marshal demoRuntime;
     json_Unmarshal_LogQuery := @json_Unmarshal_LogQuery demoRuntime;
     json_Decode_esSearchResponse := @json_Decode_esSearchResponse demoRuntime;
     mapRange := fun m w => (map_to_list m, w);
     NewClient := fun c w => (inr c, w);
     Ping := fun c w => (inr demoResponse, S w);
     Search := fun _ _ _ w =>
       (inr {| elasticsearch.IsError := true;
               elasticsearch.String := "[503 Service Unavailable]";
               elasticsearch.Body := "hits" |}, S w) |}.

(** The provider [New] builds from [demoConfig] in the closed world. *)
Definition demoClient : @Client demoRuntime := clientConfig (parseConfig demoConfig).

Definition demoProvider : @ElasticProvider demoRuntime :=
  {| cfg := parseConfig demoConfig; client := demoClient |}.

(** The same provider in the world whose searches fail. *)
Definition failingProvider : @ElasticProvider failingRuntime :=
  @Build_ElasticProvider failingRuntime (parseConfig demoConfig) demoClient.

(** A query request whose payload does not decode. *)
Definition garbledRequest : plugin.rpcRequest :=
  {| plugin.Method := "log.query"; plugin.Config := demoConfig; plugin.Payload := "{" |}.

(** A record whose message is a number. *)
Definition oddHit : esHit :=
  {| Index := "logs-2023.10.03"; ID := "ghi789"; Score := 0;
     Source := {[ "message" := VInt 42; "host" := VString "web-1"; "_id" := VString "x" ]} |}.

(** A query whose only filter has an unknown operator. *)
Definition strayFilterQuery : schema.LogQuery :=
  withExpression emptyQuery
    (Some {| schema.Search := ""; schema.SeverityIn := [];
             schema.Filters :=
               [ {| schema.Field := "url"; schema.Operator := "~"; schema.Value := "/api" |} ] |}).

(** ** Query builder: clause order, dropped filters, size, determinism *)

Section QueryBuilder.
Context `{rt : Runtime}.

Lemma filter_loop (filters : list schema.LogFilter) (acc : list (gmap string any)) :
  fold_left
    (fun mustClauses filter =>
       match buildFilterClause filter with
       | Some clause => mustClauses ++ [clause]
       | None => mustClauses
       end) filters acc
  = acc ++ omap buildFilterClause filters.
Proof.
  revert acc. induction filters as [|f fs IH]; intros acc; simpl.
  - by rewrite app_nil_r.
  - rewrite IH. destruct (buildFilterClause f); simpl; [|done].
    by rewrite <- app_assoc.
Qed.

Lemma metadata_loop (ord : list (string * any)) (acc : list (gmap string any)) :
  fold_left
    (fun mustClauses '(key, value) =>
       mustClauses ++ [ {[ "term" := VMap {[ key := value ]} ]} ]) ord acc
  = acc ++ metadataClauses ord.
Proof.
  revert acc. induction ord as [|[k v] ord IH]; intros acc; simpl.
  - by rewrite app_nil_r.
  - rewrite IH. by rewrite <- app_assoc.
Qed.

Lemma timestamp_bounds (start end_ : Time) :
  (let timestamp : gmap string any := ∅ in
   let timestamp :=
     if negb (IsZero start)
     then <["gte" := VString (time_Format start)]> timestamp else timestamp in
   if negb (IsZero end_)
   then <["lte" := VString (time_Format end_)]> timestamp else timestamp)
  = timeBound "gte" start ∪ timeBound "lte" end_.
Proof.
  unfold timeBound. apply map_eq; intros k. rewrite lookup_union.
  destruct (IsZero start), (IsZero end_); simpl;
    rewrite ?lookup_insert, ?lookup_singleton, ?lookup_empty;
    repeat case_decide; simplify_eq; done.
Qed.

Lemma appendIf_app (cond : bool) (clause : gmap string any)
    (acc : list (gmap string any)) :
  appendIf cond clause acc = acc ++ (if cond then [clause] else []).
Proof. destruct cond; simpl; by rewrite ?app_nil_r. Qed.

Lemma scopeClause_appended (key value : string) :
  (if bool_decide (value ≠ "") then [ {[ "term" := VMap {[ key := VString value ]} ]} ]
   else [])
  = scopeClause key value.
Proof. unfold scopeClause. rewrite bool_decide_not. by destruct (bool_decide _). Qed.

(** The slice built by the appends of [buildQuery], group by group. *)
Lemma mustClauses_groups (ord : list (string * any)) (query : schema.LogQuery) :
  mustClauses ord query =
    timeRangeClauses query ++ searchClauses query ++ severityClauses query
    ++ filterClauses query ++ scopeClauses query ++ metadataClauses ord.
Proof.
  pose proof (timestamp_bounds (schema.Start query) (schema.End_ query)) as Hts.
  cbv zeta in Hts.
  assert (mustClauses ord query =
            ((((([] ++ timeRangeClauses query)
                ++ searchClauses query ++ severityClauses query ++ filterClauses query)
              ++ scopeClause "service" (schema.Service (schema.Scope query)))
             ++ scopeClause "environment" (schema.Environment (schema.Scope query)))
            ++ scopeClause "team" (schema.Team (schema.Scope query)))
           ++ metadataClauses ord) as Hgroups.
  { unfold mustClauses. cbv zeta.
    rewrite metadata_loop, !appendIf_app, !scopeClause_appended.
    do 4 f_equal.
    unfold searchClauses, severityClauses, filterClauses.
    destruct (schema.Expression query) as [expression|].
    - rewrite filter_loop, !appendIf_app, bool_decide_not, <- !app_assoc, !app_nil_l.
      f_equal; [|f_equal; [|f_equal]].
      + unfold timeRangeClauses. rewrite Hts.
        destruct (IsZero (schema.Start query)), (IsZero (schema.End_ query));
          reflexivity.
      + by destruct (bool_decide _).
      + by destruct (schema.SeverityIn expression).
    - rewrite !app_nil_r, ?app_nil_l.
      unfold timeRangeClauses. rewrite Hts.
      destruct (IsZero (schema.Start query)), (IsZero (schema.End_ query));
        reflexivity. }
  rewrite Hgroups. unfold scopeClauses. by rewrite <- !app_assoc.
Qed.

Lemma buildQuery_lookup_query (ord : list (string * any)) (query : schema.LogQuery) :
  buildQuery ord query !! "query"
  = Some (VMap {[ "bool" := VMap {[ "must" := VMaps (mustClauses ord query) ]} ]}).
Proof. unfold buildQuery. by destruct (0 <? schema.Limit query); simplify_map_eq. Qed.

Lemma buildQuery_lookup_sort (ord : list (string * any)) (query : schema.LogQuery) :
  buildQuery ord query !! "sort"
  = Some (VMaps [ {[ "@timestamp" := VMap {[ "order" := VString "desc" ]} ]} ]).
Proof. unfold buildQuery. by destruct (0 <? schema.Limit query); simplify_map_eq. Qed.

Lemma buildQuery_lookup_size (ord : list (string * any)) (query : schema.LogQuery) :
  buildQuery ord query !! "size"
  = Some (VInt (if 0 <? schema.Limit query then schema.Limit query else 1000)).
Proof. unfold buildQuery. by destruct (0 <? schema.Limit query); simplify_map_eq. Qed.

Lemma buildFilterClause_known (filter : schema.LogFilter) :
  schema.Operator filter ∈ operators → is_Some (buildFilterClause filter).
Proof.
  unfold operators, buildFilterClause. rewrite !elem_of_cons, elem_of_nil.
  intros [-> | [-> | [-> | [-> | []]]]]; simpl; eauto.
Qed.

Lemma buildFilterClause_unknown (filter : schema.LogFilter) :
  schema.Operator filter ∉ operators → buildFilterClause filter = None.
Proof.
  unfold operators, buildFilterClause. rewrite !not_elem_of_cons.
  intros (? & ? & ? & ? & _).
  by rewrite !bool_decide_eq_false_2.
Qed.

(** C1.  For every query, and every order [ord] in which the runtime may
    visit the metadata map, the clauses of the built document are the
    time-range clause (present when start or end is non-zero, with [gte]
    from a non-zero start and [lte] from a non-zero end), then the
    [query_string] clause, then the severity [terms] clause, then the
    clauses of the structured filters in input order (exactly one per
    filter when every operator is a known one), then the scope clauses for
    service, environment and team, then one [term] clause per metadata
    entry; they all sit under the single key [must] of the single key
    [bool] of [query], and [sort] is descending by [@timestamp]. *)
Theorem buildQuery_clause_order (ord : list (string * any)) (query : schema.LogQuery) :
  rangeOrder (schema.Metadata query) ord →
  buildQuery ord query !! "query"
    = Some (VMap {[ "bool" := VMap {[ "must" := VMaps
        (timeRangeClauses query ++ searchClauses query ++ severityClauses query
         ++ filterClauses query ++ scopeClauses query ++ metadataClauses ord) ]} ]})
  ∧ metadataClauses ord ≡ₚ termClause <$> map_to_list (schema.Metadata query)
  ∧ (∀ expression, schema.Expression query = Some expression →
       Forall (λ filter, schema.Operator filter ∈ operators) (schema.Filters expression) →
       Some <$> filterClauses query = buildFilterClause <$> schema.Filters expression)
  ∧ buildQuery ord query !! "sort"
    = Some (VMaps [ {[ "@timestamp" := VMap {[ "order" := VString "desc" ]} ]} ]).
Proof.
  intros Hord. split_and!.
  - by rewrite buildQuery_lookup_query, mustClauses_groups.
  - unfold metadataClauses. by rewrite Hord.
  - intros expression Hexpr Hknown. unfold filterClauses. rewrite Hexpr.
    induction Hknown as [|filter filters Hop _ IH]; [done|]. simpl.
    destruct (buildFilterClause_known filter Hop) as [clause ->].
    rewrite !fmap_cons. by f_equal.
  - apply buildQuery_lookup_sort.
Qed.

(** C3.  A filter whose operator is none of "=", "!=", "contains",
    "regex" yields no clause, and the document built for a filter list
    that contains it is the document built for the list without it; the
    clause counts agree. *)
Theorem unknown_operator_no_clause
    (ord : list (string * any)) (query : schema.LogQuery)
    (expression : schema.LogExpression)
    (before after : list schema.LogFilter) (filter : schema.LogFilter) :
  schema.Operator filter ∉ operators →
  schema.Expression query = Some expression →
  schema.Filters expression = before ++ filter :: after →
  buildFilterClause filter = None
  ∧ buildQuery ord query = buildQuery ord (withFilters query (before ++ after))
  ∧ length (mustClauses ord query)
    = length (mustClauses ord (withFilters query (before ++ after))).
Proof.
  intros Hop Hexpr Hfilters.
  pose proof (buildFilterClause_unknown filter Hop) as Hnone.
  assert (mustClauses ord query = mustClauses ord (withFilters query (before ++ after)))
    as Hsame.
  { rewrite !mustClauses_groups.
    unfold timeRangeClauses, searchClauses, severityClauses, filterClauses,
      scopeClauses, withFilters; simpl.
    rewrite Hexpr; simpl. rewrite Hfilters.
    rewrite !omap_app. simpl. by rewrite Hnone. }
  split_and!; [done | | by rewrite Hsame].
  unfold buildQuery. rewrite Hsame. done.
Qed.

(** C7.  The [size] of the built document is the query's limit when the
    limit is positive and 1000 otherwise; with limit 3 it is 3. *)
Theorem buildQuery_size (ord : list (string * any)) (query : schema.LogQuery) :
  buildQuery ord query !! "size"
    = Some (VInt (if 0 <? schema.Limit query then schema.Limit query else 1000))
  ∧ (0 < schema.Limit query →
       buildQuery ord query !! "size" = Some (VInt (schema.Limit query)))
  ∧ (schema.Limit query ≤ 0 → buildQuery ord query !! "size" = Some (VInt 1000))
  ∧ (schema.Limit query = 3 → buildQuery ord query !! "size" = Some (VInt 3)).
Proof.
  rewrite buildQuery_lookup_size. split_and!; [done | | |].
  - intros H. by rewrite (proj2 (Z.ltb_lt _ _) H).
  - intros H. by rewrite (proj2 (Z.ltb_ge _ _) H).
  - intros ->. done.
Qed.

(** C9, as amended.  Two calls of [buildQuery] on the same query agree
    on everything but the order of the metadata clauses: the clauses
    before them are the same list, the metadata clauses of one call are a
    permutation of those of the other, [sort] and [size] agree; and when
    the metadata map has at most one entry the two documents are equal. *)
Theorem buildQuery_stable_up_to_metadata_order
    (ord1 ord2 : list (string * any)) (query : schema.LogQuery) :
  rangeOrder (schema.Metadata query) ord1 →
  rangeOrder (schema.Metadata query) ord2 →
  (∃ fixed : list (gmap string any),
      mustClauses ord1 query = fixed ++ metadataClauses ord1
      ∧ mustClauses ord2 query = fixed ++ metadataClauses ord2)
  ∧ metadataClauses ord1 ≡ₚ metadataClauses ord2
  ∧ buildQuery ord1 query !! "sort" = buildQuery ord2 query !! "sort"
  ∧ buildQuery ord1 query !! "size" = buildQuery ord2 query !! "size"
  ∧ ((size (schema.Metadata query) ≤ 1)%nat →
       buildQuery ord1 query = buildQuery ord2 query).
Proof.
  unfold rangeOrder. intros H1 H2. split_and!.
  - exists (timeRangeClauses query ++ searchClauses query ++ severityClauses query
            ++ filterClauses query ++ scopeClauses query).
    rewrite !mustClauses_groups, <- !app_assoc. done.
  - unfold metadataClauses. by rewrite H1, H2.
  - by rewrite !buildQuery_lookup_sort.
  - by rewrite !buildQuery_lookup_size.
  - intros Hsize. replace ord2 with ord1; [done|].
    assert (length (map_to_list (schema.Metadata query)) ≤ 1)%nat as Hlen
      by by rewrite length_map_to_list.
    destruct (map_to_list (schema.Metadata query)) as [|kv [|kv' rest]];
      simpl in Hlen; [| |lia].
    + apply Permutation_nil_r in H1, H2. by subst.
    + apply Permutation_singleton_r in H1, H2. by subst.
Qed.

End QueryBuilder.

(** ** Result normalizer: severity fallback and the labels/fields partition *)

Section Normalizer.
Context `{rt : Runtime}.

Lemma skipped_names (key : string) : skipped key = true ↔ key ∈ skippedNames.
Proof.
  unfold skipped, skippedNames.
  rewrite !elem_of_cons, elem_of_nil, !orb_true_iff, !bool_decide_eq_true.
  tauto.
Qed.

Lemma not_skipped_names (key : string) : skipped key = false ↔ key ∉ skippedNames.
Proof.
  rewrite <- skipped_names. destruct (skipped key); split; congruence.
Qed.

(** The labels loop, read from the last entry visited back to the first. *)
Lemma labels_foldr (l : list (string * any)) (k : string) (s : string) :
  NoDup l.*1 →
  (foldr
    (fun (kv : string * any) (labels : gmap string string) =>
       let '(key, value) := kv in
       if skipped key then labels
       else match value with
            | VString strVal => <[key := strVal]> labels
            | _ => labels
            end) ∅ l) !! k = Some s
  ↔ skipped k = false ∧ (k, VString s) ∈ l.
Proof.
  induction l as [|[k0 v0] l IH]; simpl; intros Hnd.
  - rewrite lookup_empty, elem_of_nil. intuition congruence.
  - apply NoDup_cons in Hnd as [Hk0 Hnd]. specialize (IH Hnd).
    rewrite elem_of_cons.
    assert ((k0, VString s) ∈ l → False) as Hfresh.
    { intros Hin. apply Hk0. apply list_elem_of_fmap. by exists (k0, VString s). }
    destruct (skipped k0) eqn:Hskip.
    { rewrite IH. intuition congruence. }
    destruct v0; try (rewrite IH; intuition congruence).
    destruct (decide (k0 = k)) as [->|Hne].
    + rewrite lookup_insert_eq. split.
      * intros ?; simplify_eq. auto.
      * intros [_ [Heq | Hin]]; [by simplify_eq | by destruct Hfresh].
    + rewrite lookup_insert_ne by done. rewrite IH. intuition congruence.
Qed.

(** The fields loop, read the same way. *)
Lemma fields_foldr (l : list (string * any)) (k : string) (v : any) :
  NoDup l.*1 →
  (foldr
    (fun (kv : string * any) (fields : gmap string any) =>
       let '(key, value) := kv in
       if skipped key then fields else <[key := value]> fields) ∅ l) !! k = Some v
  ↔ skipped k = false ∧ (k, v) ∈ l.
Proof.
  induction l as [|[k0 v0] l IH]; simpl; intros Hnd.
  - rewrite lookup_empty, elem_of_nil. intuition congruence.
  - apply NoDup_cons in Hnd as [Hk0 Hnd]. specialize (IH Hnd).
    rewrite elem_of_cons.
    assert ((k0, v) ∈ l → False) as Hfresh.
    { intros Hin. apply Hk0. apply list_elem_of_fmap. by exists (k0, v). }
    destruct (skipped k0) eqn:Hskip.
    { rewrite IH. intuition congruence. }
    destruct (decide (k0 = k)) as [->|Hne].
    + rewrite lookup_insert_eq. split.
      * intros ?; simplify_eq. auto.
      * intros [_ [Heq | Hin]]; [by simplify_eq | by destruct Hfresh].
    + rewrite lookup_insert_ne by done. rewrite IH. intuition congruence.
Qed.

Lemma rangeOrder_NoDup (source : gmap string any) (ord : list (string * any)) :
  rangeOrder source ord → NoDup (rev ord).*1.
Proof.
  unfold rangeOrder. intros Hord.
  assert (rev ord ≡ₚ map_to_list source) as ->.
  { rewrite <- Hord. symmetry. apply Permutation_rev. }
  apply NoDup_fst_map_to_list.
Qed.

Lemma rangeOrder_elem_of (source : gmap string any) (ord : list (string * any))
    (k : string) (v : any) :
  rangeOrder source ord → (k, v) ∈ rev ord ↔ source !! k = Some v.
Proof.
  unfold rangeOrder. intros Hord.
  rewrite <- elem_of_map_to_list, <- Hord.
  by rewrite <- (Permutation_rev ord).
Qed.

(** What the labels loop leaves in [entry.Labels]. *)
Lemma normalizeHit_labels (labelOrd fieldOrd : list (string * any)) (hit : esHit)
    (k : string) (s : string) :
  rangeOrder (Source hit) labelOrd →
  schema.LogEntry.Labels (normalizeHit labelOrd fieldOrd hit) !! k = Some s
  ↔ (k ∉ skippedNames) ∧ Source hit !! k = Some (VString s).
Proof.
  intros Hord. unfold normalizeHit; simpl.
  rewrite <- fold_left_rev_right.
  rewrite <- not_skipped_names.
  rewrite <- (rangeOrder_elem_of (Source hit) labelOrd k (VString s) Hord).
  apply labels_foldr. exact (rangeOrder_NoDup _ _ Hord).
Qed.

(** What the fields loop leaves in [entry.Fields]. *)
Lemma normalizeHit_fields (labelOrd fieldOrd : list (string * any)) (hit : esHit)
    (k : string) (v : any) :
  rangeOrder (Source hit) fieldOrd →
  schema.LogEntry.Fields (normalizeHit labelOrd fieldOrd hit) !! k = Some v
  ↔ (k ∉ skippedNames) ∧ Source hit !! k = Some v.
Proof.
  intros Hord. unfold normalizeHit; simpl.
  rewrite <- fold_left_rev_right.
  rewrite <- not_skipped_names.
  rewrite <- (rangeOrder_elem_of (Source hit) fieldOrd k v Hord).
  apply fields_foldr. exact (rangeOrder_NoDup _ _ Hord).
Qed.

(** C4.  The severity of the normalized entry is the string held by the
    source's [severity] field when there is one; otherwise the string held
    by its [level] field when there is one; otherwise the empty string.
    A record with level "warn" and no severity field gets severity "warn";
    when both fields hold strings, [severity] wins. *)
Theorem normalizeHit_severity (labelOrd fieldOrd : list (string * any)) (hit : esHit) :
  let severity := schema.LogEntry.Severity (normalizeHit labelOrd fieldOrd hit) in
  (∀ sev, Source hit !! "severity" = Some (VString sev) → severity = sev)
  ∧ (∀ level, sourceString (Source hit) "severity" = None →
       Source hit !! "level" = Some (VString level) → severity = level)
  ∧ (sourceString (Source hit) "severity" = None →
       sourceString (Source hit) "level" = None → severity = "")
  ∧ (Source hit !! "severity" = None →
       Source hit !! "level" = Some (VString "warn") → severity = "warn")
  ∧ (∀ sev level, Source hit !! "severity" = Some (VString sev) →
       Source hit !! "level" = Some (VString level) → severity = sev).
Proof.
  unfold normalizeHit, sourceString; simpl. split_and!.
  - by intros sev ->.
  - by intros level -> ->.
  - by intros -> ->.
  - by intros -> ->.
  - by intros sev level -> _.
Qed.

(** C5.  Whatever the orders in which the two loops visit the source:
    every label is also a field with the same string as its value; the
    labels are exactly the string-valued source entries whose key is not
    one of "@timestamp", "message", "severity", "level", "service"; and
    none of these five names is a key of the labels or of the fields. *)
Theorem normalizeHit_field_partition
    (labelOrd fieldOrd : list (string * any)) (hit : esHit) :
  rangeOrder (Source hit) labelOrd →
  rangeOrder (Source hit) fieldOrd →
  let entry := normalizeHit labelOrd fieldOrd hit in
  (∀ key strVal, schema.LogEntry.Labels entry !! key = Some strVal →
     schema.LogEntry.Fields entry !! key = Some (VString strVal))
  ∧ (∀ key strVal, schema.LogEntry.Labels entry !! key = Some strVal
       ↔ (key ∉ skippedNames) ∧ Source hit !! key = Some (VString strVal))
  ∧ (∀ key, key ∈ skippedNames →
       schema.LogEntry.Labels entry !! key = None
       ∧ schema.LogEntry.Fields entry !! key = None).
Proof.
  intros Hl Hf entry. split_and!.
  - intros key strVal Hlabel.
    apply (normalizeHit_labels labelOrd fieldOrd) in Hlabel; [|done].
    by apply normalizeHit_fields.
  - intros key strVal. by apply normalizeHit_labels.
  - intros key Hkey. split.
    + destruct (schema.LogEntry.Labels entry !! key) as [strVal|] eqn:Hlabel; [|done].
      apply (normalizeHit_labels labelOrd fieldOrd) in Hlabel as [Hnot _]; done.
    + destruct (schema.LogEntry.Fields entry !! key) as [value|] eqn:Hfield; [|done].
      apply (normalizeHit_fields labelOrd fieldOrd) in Hfield as [Hnot _]; done.
Qed.

(** C6, as amended.  Whatever the orders in which the loops visit the
    source, every source entry whose key is not one of the five names
    "@timestamp", "message", "severity", "level", "service" is a field of
    the normalized entry with its original value, string or not; and the
    fields hold nothing else. *)
Theorem normalizeHit_fields_complete
    (labelOrd fieldOrd : list (string * any)) (hit : esHit) :
  rangeOrder (Source hit) fieldOrd →
  let entry := normalizeHit labelOrd fieldOrd hit in
  (∀ key value, Source hit !! key = Some value → key ∉ skippedNames →
     schema.LogEntry.Fields entry !! key = Some value)
  ∧ (∀ key value, schema.LogEntry.Fields entry !! key = Some value →
       Source hit !! key = Some value ∧ key ∉ skippedNames).
Proof.
  intros Hf entry. split.
  - intros key value Hsrc Hkey. by apply normalizeHit_fields.
  - intros key value Hfield.
    apply (normalizeHit_fields labelOrd fieldOrd) in Hfield as [? ?]; done.
Qed.

End Normalizer.

(** ** Provider construction *)

Section Construction.
Context `{rt : Runtime}.

Lemma parseAddresses_strings (addrs : list any) :
  parseAddresses addrs
  = omap (fun addr => match addr with VString strAddr => Some strAddr | _ => None end) addrs.
Proof.
  unfold parseAddresses.
  assert (∀ acc, fold_left
            (fun out addr => match addr with VString strAddr => out ++ [strAddr] | _ => out end)
            addrs acc
          = acc ++ omap (fun addr => match addr with
                                     | VString strAddr => Some strAddr
                                     | _ => None
                                     end) addrs) as Hloop.
  { induction addrs as [|addr addrs IH]; intros acc; simpl.
    - by rewrite app_nil_r.
    - rewrite IH. destruct addr; simpl; try done. by rewrite <- app_assoc. }
  by rewrite Hloop.
Qed.

Lemma connect_not_configError (parsed : Config) (w : World) :
  (connect parsed w).1 ≠ inl configError.
Proof.
  unfold connect, configError, errors_New, fmt_Errorf_w.
  destruct (NewClient (clientConfig parsed) w) as [[err|client] w1]; simpl; [congruence|].
  destruct (Ping client w1) as [[err|res] w2]; simpl; congruence.
Qed.

Lemma New_rejected (cfg : gmap string any) (w : World) :
  Addresses (parseConfig cfg) = [] → CloudID (parseConfig cfg) = "" →
  New cfg w = (inl configError, w).
Proof. unfold New. intros -> ->. done. Qed.

Lemma New_accepted (cfg : gmap string any) (w : World) :
  Addresses (parseConfig cfg) ≠ [] ∨ CloudID (parseConfig cfg) ≠ "" →
  New cfg w = connect (parseConfig cfg) w.
Proof.
  unfold New. intros Hok.
  destruct (Addresses (parseConfig cfg)) as [|addr addrs] eqn:Haddrs; simpl; [|done].
  destruct Hok as [?|Hcloud]; [done|].
  by rewrite bool_decide_eq_false_2.
Qed.

(** C2.  [New] fails with the configuration error exactly when the parsed
    address list and the parsed cloud id are both empty.  A config whose
    ["addresses"] slice holds at least one string, or whose ["cloudID"] is
    a non-empty string, passes validation: [New] is then the client
    creation followed by the ping, whatever the other fields hold.  That
    is, [New] calls [NewClient] on the client configuration of the parsed
    config; when that fails [New] returns its error, wrapped, and no ping
    is made; otherwise [New] pings through the new client, and returns the
    ping's error, wrapped, or the provider made of the parsed config and
    that client. *)
Theorem New_validation (cfg : gmap string any) (w : World) :
  ((New cfg w).1 = inl configError
     ↔ Addresses (parseConfig cfg) = [] ∧ CloudID (parseConfig cfg) = "")
  ∧ ((∃ addrs addr, cfg !! "addresses" = Some (VSlice addrs) ∧ VString addr ∈ addrs)
       ∨ (∃ id, cfg !! "cloudID" = Some (VString id) ∧ id ≠ "") →
     New cfg w = connect (parseConfig cfg) w ∧ (New cfg w).1 ≠ inl configError)
  ∧ ((∃ addrs addr, cfg !! "addresses" = Some (VSlice addrs) ∧ VString addr ∈ addrs)
       ∨ (∃ id, cfg !! "cloudID" = Some (VString id) ∧ id ≠ "") →
     (∀ cause w1,
        NewClient (clientConfig (parseConfig cfg)) w = (inl cause, w1) →
        New cfg w
        = (inl (wrapError
                  (String.append "failed to create Elasticsearch client: " (Error cause))
                  cause), w1))
     ∧ (∀ c w1 cause w2,
          NewClient (clientConfig (parseConfig cfg)) w = (inr c, w1) →
          Ping c w1 = (inl cause, w2) →
          New cfg w
          = (inl (wrapError
                    (String.append "failed to connect to Elasticsearch: " (Error cause))
                    cause), w2))
     ∧ (∀ c w1 res w2,
          NewClient (clientConfig (parseConfig cfg)) w = (inr c, w1) →
          Ping c w1 = (inr res, w2) →
          New cfg w = (inr (Build_ElasticProvider (parseConfig cfg) c), w2))).
Proof.
  assert ((∃ addrs addr, cfg !! "addresses" = Some (VSlice addrs) ∧ VString addr ∈ addrs)
          ∨ (∃ id, cfg !! "cloudID" = Some (VString id) ∧ id ≠ "") →
          Addresses (parseConfig cfg) ≠ [] ∨ CloudID (parseConfig cfg) ≠ "") as Hpass.
  { intros [(addrs & addr & Hlook & Hin) | (id & Hlook & Hid)].
    - left. unfold parseConfig; simpl. rewrite Hlook, parseAddresses_strings.
      intros Hnil.
      assert (addr ∈ omap (fun a => match a with VString s => Some s | _ => None end) addrs)
        as Hmem by (apply list_elem_of_omap; by exists (VString addr)).
      rewrite Hnil in Hmem. by apply elem_of_nil in Hmem.
    - right. unfold parseConfig, stringField; simpl. by rewrite Hlook. }
  split_and!.
  - split.
    + intros Herr.
      destruct (decide (Addresses (parseConfig cfg) = [])) as [Ha|Ha];
        [destruct (decide (CloudID (parseConfig cfg) = "")) as [Hc|Hc]; [done|]|];
        rewrite New_accepted in Herr by auto;
        by destruct (connect_not_configError (parseConfig cfg) w).
    + intros [Ha Hc]. by rewrite New_rejected.
  - intros Hcfg. rewrite New_accepted by auto.
    split; [done|]. apply connect_not_configError.
  - intros Hcfg. rewrite New_accepted by auto. unfold connect, fmt_Errorf_w.
    split_and!.
    + intros cause w1 Hclient. by rewrite Hclient.
    + intros c w1 cause w2 Hclient Hping. by rewrite Hclient, Hping.
    + intros c w1 res w2 Hclient Hping. by rewrite Hclient, Hping.
Qed.

End Construction.

(** ** Transport loop *)

Section Transport.
Context `{rt : Runtime}.

Lemma main_cons (req : plugin.rpcRequest)
    (stdin : list (error + plugin.rpcRequest)) (st : state) :
  main (inr req :: stdin) st = main stdin (serve req st).
Proof. reflexivity. Qed.

Lemma main_app (requests : list plugin.rpcRequest)
    (rest : list (error + plugin.rpcRequest)) (st : state) :
  main ((inr <$> requests) ++ rest) st = main rest (main (inr <$> requests) st).
Proof.
  revert st. induction requests as [|req requests IH]; intros st; simpl; [done|].
  apply IH.
Qed.

(** Every path through the loop body hands exactly one record to the
    encoder. *)
Lemma serve_one_response (req : plugin.rpcRequest) (st : state) :
  ∃ resp, stdout (serve req st) = stdout st ++ [resp].
Proof.
  unfold serve, ensureProvider.
  destruct (provider st) as [prov|].
  - destruct (bool_decide _); [|by eexists].
    destruct (json_Unmarshal_LogQuery _) as [err|query]; [by eexists|].
    destruct (Query prov query (world st)) as [[err|entries] w]; by eexists.
  - destruct (New (plugin.Config req) (world st)) as [[err|prov] w]; [by eexists|].
    simpl. destruct (bool_decide _); [|by eexists].
    destruct (json_Unmarshal_LogQuery _) as [err|query]; [by eexists|].
    destruct (Query prov query w) as [[err|entries] w']; by eexists.
Qed.

Lemma main_responses (requests : list plugin.rpcRequest) (st : state) :
  ∃ resps, stdout (main (inr <$> requests) st) = stdout st ++ resps
           ∧ length resps = length requests.
Proof.
  revert st. induction requests as [|req requests IH]; intros st.
  - exists []. by rewrite app_nil_r.
  - destruct (serve_one_response req st) as [resp Hresp].
    destruct (IH (serve req st)) as (resps & Hout & Hlen).
    exists (resp :: resps). rewrite fmap_cons, main_cons, Hout, Hresp, <- app_assoc.
    simpl. by rewrite Hlen.
Qed.

(** C8.  After any run of decoded requests: end of stream (the input is
    used up, or [Decode] returns an error that is [io.EOF]) ends the loop
    with nothing more written; any other decode error makes the loop
    write exactly one error response and end, whatever follows on the
    input; and each decoded request leaves exactly one new response on the
    output before the loop goes on to the rest of the input. *)
Theorem main_end_of_stream_and_decode_failure
    (requests : list plugin.rpcRequest) (st : state) :
  (∃ resps, stdout (main (inr <$> requests) st) = stdout st ++ resps
            ∧ length resps = length requests)
  ∧ (∀ err rest, errors_Is_EOF err = true →
       main ((inr <$> requests) ++ inl err :: rest) st = main (inr <$> requests) st)
  ∧ (∀ err rest, errors_Is_EOF err = false →
       main ((inr <$> requests) ++ inl err :: rest) st
       = writeErr err (main (inr <$> requests) st)
       ∧ stdout (main ((inr <$> requests) ++ inl err :: rest) st)
         = stdout (main (inr <$> requests) st)
           ++ [ {| plugin.Result := None; plugin.Error := Error err |} ])
  ∧ (∀ req stdin, ∃ resp,
       stdout (serve req st) = stdout st ++ [resp]
       ∧ main (inr req :: stdin) st = main stdin (serve req st)).
Proof.
  split_and!.
  - apply main_responses.
  - intros err rest Heof. rewrite main_app. simpl. by rewrite Heof.
  - intros err rest Heof. rewrite main_app. simpl. by rewrite Heof.
  - intros req stdin. destruct (serve_one_response req st) as [resp Hresp].
    by exists resp.
Qed.

Lemma serve_ready (req : plugin.rpcRequest) (st : state) (prov : ElasticProvider) :
  provider st = Some prov →
  provider (serve req st) = Some prov
  ∧ ∀ cfg, serve (withConfig cfg req) st = serve req st.
Proof.
  intros Hprov. unfold serve, ensureProvider. rewrite Hprov. simpl. split; [|done].
  destruct (bool_decide _); [|done].
  destruct (json_Unmarshal_LogQuery _) as [err|query]; [done|].
  destruct (Query prov query (world st)) as [[err|entries] w]; done.
Qed.

Lemma main_ready (f : plugin.rpcRequest → gmap string any)
    (stdin : list (error + plugin.rpcRequest)) (st : state) (prov : ElasticProvider) :
  provider st = Some prov →
  provider (main stdin st) = Some prov
  ∧ main (reconfigure f stdin) st = main stdin st.
Proof.
  revert st. induction stdin as [|[err|req] stdin IH]; intros st Hprov; simpl.
  - done.
  - by destruct (errors_Is_EOF err).
  - destruct (serve_ready req st prov Hprov) as [Hkeep Hsame].
    rewrite Hsame. by apply IH.
Qed.

(** C10.  Once the provider is set, every later request is served by it
    and the configs on the input do not matter: the loop run on the input
    with every config replaced, by whatever configs, ends in the same
    state, and the provider is still the same.  While the provider is
    unset, each request calls [New] with its own config; when [New] fails
    the provider stays unset and the response is the construction error,
    whatever the method name, so a request with a config that names no
    address and no cloud id gets the configuration error even for an
    unknown method; when [New] succeeds the provider is set.

    In detail.  With the provider set, [ensureProvider] returns that
    provider, without error and with the state untouched, for every
    config; a [log.query] request whose payload decodes is answered with
    what [Query] on that provider returns, and only [Query] moves the
    world.  With the provider unset, [ensureProvider] is [New] on the
    config it is given: its error leaves the provider unset, its provider
    is stored, and the request that made it is served by it. *)
Theorem provider_memoized (st : state) :
  (∀ prov f stdin, provider st = Some prov →
     provider (main stdin st) = Some prov
     ∧ main (reconfigure f stdin) st = main stdin st)
  ∧ (∀ req err w, provider st = None →
       New (plugin.Config req) (world st) = (inl err, w) →
       serve req st = writeErr err (setWorld st w)
       ∧ provider (serve req st) = None)
  ∧ (∀ req prov w, provider st = None →
       New (plugin.Config req) (world st) = (inr prov, w) →
       provider (serve req st) = Some prov)
  ∧ (∀ req, provider st = None →
       Addresses (parseConfig (plugin.Config req)) = [] →
       CloudID (parseConfig (plugin.Config req)) = "" →
       stdout (serve req st)
       = stdout st ++ [ {| plugin.Result := None; plugin.Error := Error configError |} ]
       ∧ provider (serve req st) = None)
  ∧ (∀ prov config, provider st = Some prov →
       ensureProvider config st = (inr prov, st))
  ∧ (∀ prov req query res w, provider st = Some prov →
       plugin.Method req = "log.query" →
       json_Unmarshal_LogQuery (plugin.Payload req) = inr query →
       Query prov query (world st) = (res, w) →
       serve req st = write res (setWorld st w))
  ∧ (∀ config err w, provider st = None →
       New config (world st) = (inl err, w) →
       ensureProvider config st = (inl err, setWorld st w))
  ∧ (∀ config prov w, provider st = None →
       New config (world st) = (inr prov, w) →
       ensureProvider config st
       = (inr prov, {| provider := Some prov; stdout := stdout st; world := w |}))
  ∧ (∀ req prov w, provider st = None →
       New (plugin.Config req) (world st) = (inr prov, w) →
       serve req st
       = serve req {| provider := Some prov; stdout := stdout st; world := w |}).
Proof.
  split_and!.
  - intros prov f stdin Hprov. by apply main_ready.
  - intros req err w Hnone Hnew. unfold serve, ensureProvider.
    by rewrite Hnone, Hnew.
  - intros req prov w Hnone Hnew. unfold serve, ensureProvider.
    rewrite Hnone, Hnew. simpl.
    destruct (bool_decide _); [|done].
    destruct (json_Unmarshal_LogQuery _) as [err|query]; [done|].
    destruct (Query prov query w) as [[err|entries] w']; done.
  - intros req Hnone Haddrs Hcloud. unfold serve, ensureProvider.
    rewrite Hnone, New_rejected by done. done.
  - intros prov config Hprov. unfold ensureProvider. by rewrite Hprov.
  - intros prov req query res w Hprov Hmethod Hpayload Hquery.
    unfold serve, ensureProvider. rewrite Hprov, Hmethod, Hpayload, Hquery.
    by rewrite bool_decide_eq_true_2.
  - intros config err w Hnone Hnew. unfold ensureProvider. by rewrite Hnone, Hnew.
  - intros config prov w Hnone Hnew. unfold ensureProvider. by rewrite Hnone, Hnew.
  - intros req prov w Hnone Hnew. unfold serve, ensureProvider.
    by rewrite Hnone, Hnew.
Qed.

End Transport.

(** ** Further properties: configuration parsing and construction *)

Section ConfigParsing.
Context `{rt : Runtime}.



(** X1.  A key that [parseConfig] does not look up has no effect: adding
    it to the config, with any value, changes neither the parsed config
    nor what [New] does. *)
Theorem parseConfig_ignores_other_keys
    (cfg : gmap string any) (key : string) (value : any) (w : World) :
  key ∉ knownConfigKeys →
  parseConfig (<[key := value]> cfg) = parseConfig cfg
  ∧ New (<[key := value]> cfg) w = New cfg w.
Proof.
  unfold knownConfigKeys. rewrite !not_elem_of_cons.
  intros (? & ? & ? & ? & ? & ? & _).
  assert (parseConfig (<[key := value]> cfg) = parseConfig cfg) as Hsame.
  { unfold parseConfig, stringField. by rewrite !lookup_insert_ne. }
  split; [done|]. unfold New. by rewrite Hsame.
Qed.

Lemma IndexPattern_not_empty (config : gmap string any) :
  IndexPattern (parseConfig config) ≠ "".
Proof.
  unfold parseConfig; simpl.
  destruct (config !! "indexPattern") as [[]|]; try done.
  case_bool_decide; done.
Qed.

(** X2.  The parsed index pattern is never empty: an absent, non-string
    or empty ["indexPattern"] gives "logs-*", a non-empty string is taken
    as it is. *)
Theorem parseConfig_IndexPattern (cfg : gmap string any) :
  IndexPattern (parseConfig cfg) ≠ ""
  ∧ (∀ v, cfg !! "indexPattern" = Some (VString v) → v ≠ "" →
       IndexPattern (parseConfig cfg) = v)
  ∧ (sourceString cfg "indexPattern" = None ∨ cfg !! "indexPattern" = Some (VString "") →
       IndexPattern (parseConfig cfg) = "logs-*").
Proof.
  split_and!; [apply IndexPattern_not_empty| |]; unfold parseConfig, sourceString; simpl.
  - intros v -> Hv. by rewrite bool_decide_eq_true_2.
  - intros [Hnone | ->]; [|done].
    destruct (cfg !! "indexPattern") as [[]|]; done.
Qed.


(** X4.  The client configuration never names two ways to reach or two
    ways to authenticate: a cloud id excludes the address list, an API
    key excludes user name and password; without them the address list
    and the user name and password are passed on unchanged. *)
Theorem clientConfig_precedence (parsed : Config) :
  let esCfg := clientConfig parsed in
  (elasticsearch.CloudID esCfg ≠ "" → elasticsearch.Addresses esCfg = [])
  ∧ (elasticsearch.APIKey esCfg ≠ "" →
       elasticsearch.Username esCfg = "" ∧ elasticsearch.Password esCfg = "")
  ∧ elasticsearch.CloudID esCfg = CloudID parsed
  ∧ elasticsearch.APIKey esCfg = APIKey parsed
  ∧ (CloudID parsed = "" → elasticsearch.Addresses esCfg = Addresses parsed)
  ∧ (APIKey parsed = "" →
       elasticsearch.Username esCfg = Username parsed
       ∧ elasticsearch.Password esCfg = Password parsed).
Proof.
  unfold clientConfig; simpl.
  destruct (decide (CloudID parsed = "")) as [Hc|Hc];
    destruct (decide (APIKey parsed = "")) as [Hk|Hk];
    destruct (decide (Username parsed = "")) as [Hu|Hu];
    destruct (decide (Password parsed = "")) as [Hp|Hp];
    rewrite ?Hc, ?Hk, ?Hu, ?Hp;
    rewrite ?(bool_decide_eq_true_2 _ Hc), ?(bool_decide_eq_true_2 _ Hk),
      ?(bool_decide_eq_true_2 _ Hu), ?(bool_decide_eq_true_2 _ Hp);
    simpl; split_and!; try done; intros; try done; by split.
Qed.

(** X5.  [New] returns a provider exactly when validation passes, the
    client is created and the ping is answered; the provider then holds
    the parsed config (so its index pattern is not empty) and that
    client. *)
Theorem New_success (config : gmap string any) (w w' : World) (p : ElasticProvider) :
  New config w = (inr p, w')
  ↔ (Addresses (parseConfig config) ≠ [] ∨ CloudID (parseConfig config) ≠ "")
    ∧ IndexPattern (cfg p) ≠ ""
    ∧ ∃ c w1 res,
        NewClient (clientConfig (parseConfig config)) w = (inr c, w1)
        ∧ Ping c w1 = (inr res, w')
        ∧ p = {| cfg := parseConfig config; client := c |}.
Proof.
  split.
  - intros Hnew.
    assert (Addresses (parseConfig config) ≠ [] ∨ CloudID (parseConfig config) ≠ "")
      as Hok.
    { destruct (decide (Addresses (parseConfig config) = [])) as [Ha|Ha]; [|by left].
      destruct (decide (CloudID (parseConfig config) = "")) as [Hc|Hc]; [|by right].
      rewrite New_rejected in Hnew by done. discriminate Hnew. }
    rewrite New_accepted in Hnew by done. unfold connect in Hnew.
    destruct (NewClient (clientConfig (parseConfig config)) w) as [[err|c] w1] eqn:Hc;
      [discriminate Hnew|].
    destruct (Ping c w1) as [[err|res] w2] eqn:Hp; [discriminate Hnew|].
    injection Hnew as <- <-. split_and!; [done| |by exists c, w1, res].
    apply IndexPattern_not_empty.
  - intros (Hok & _ & c & w1 & res & Hc & Hp & ->).
    rewrite New_accepted by done. unfold connect. by rewrite Hc, Hp.
Qed.

(** X6.  When [New] fails, the error is one of three: the configuration
    error, returned before anything outside the process is touched; the
    client's construction error, wrapped, with the ping not attempted; or
    the ping's error, wrapped.  The wrapping keeps the cause and prefixes
    its text. *)
Theorem New_failure (config : gmap string any) (w w' : World) (err : error) :
  New config w = (inl err, w') →
  (err = configError ∧ w' = w
     ∧ Addresses (parseConfig config) = [] ∧ CloudID (parseConfig config) = "")
  ∨ (∃ cause,
       NewClient (clientConfig (parseConfig config)) w = (inl cause, w')
       ∧ err = wrapError
                 (String.append "failed to create Elasticsearch client: " (Error cause))
                 cause)
  ∨ (∃ c w1 cause,
       NewClient (clientConfig (parseConfig config)) w = (inr c, w1)
       ∧ Ping c w1 = (inl cause, w')
       ∧ err = wrapError
                 (String.append "failed to connect to Elasticsearch: " (Error cause))
                 cause).
Proof.
  intros Hnew.
  destruct (decide (Addresses (parseConfig config) = [])) as [Ha|Ha];
    [destruct (decide (CloudID (parseConfig config) = "")) as [Hc|Hc]|].
  - rewrite New_rejected in Hnew by done. injection Hnew as <- <-. by left.
  - right. rewrite New_accepted in Hnew by auto. unfold connect in Hnew.
    destruct (NewClient (clientConfig (parseConfig config)) w) as [[cause|c] w1] eqn:Hn.
    + injection Hnew as <- <-. left. by exists cause.
    + destruct (Ping c w1) as [[cause|res] w2] eqn:Hp; [|discriminate Hnew].
      injection Hnew as <- <-. right. by exists c, w1, cause.
  - right. rewrite New_accepted in Hnew by auto. unfold connect in Hnew.
    destruct (NewClient (clientConfig (parseConfig config)) w) as [[cause|c] w1] eqn:Hn.
    + injection Hnew as <- <-. left. by exists cause.
    + destruct (Ping c w1) as [[cause|res] w2] eqn:Hp; [|discriminate Hnew].
      injection Hnew as <- <-. right. by exists c, w1, cause.
Qed.

End ConfigParsing.

(** ** Further properties: the query builder *)

Section QueryBuilderMore.
Context `{rt : Runtime}.

Lemma append_star_inj (a b : string) :
  String.append a "*" = String.append b "*" → a = b.
Proof.
  revert b. induction a as [|c a IH]; intros [|d b]; simpl; intros Heq.
  - done.
  - injection Heq as _ Heq. by destruct b.
  - injection Heq as _ Heq. by destruct a.
  - injection Heq as -> Heq. f_equal. by apply IH.
Qed.

Lemma VMap_inj (m1 m2 : gmap string any) : VMap m1 = VMap m2 → m1 = m2.
Proof. intros Heq. by injection Heq. Qed.

Lemma VString_inj (s1 s2 : string) : VString s1 = VString s2 → s1 = s2.
Proof. intros Heq. by injection Heq. Qed.

Lemma buildFilterClause_None (filter : schema.LogFilter) :
  buildFilterClause filter = None ↔ schema.Operator filter ∉ operators.
Proof.
  split; [|apply buildFilterClause_unknown].
  intros Hnone Hop. destruct (buildFilterClause_known filter Hop) as [c Hc]. congruence.
Qed.

Lemma omap_known_filters (filters : list schema.LogFilter) :
  omap buildFilterClause (filter (fun f => schema.Operator f ∈ operators) filters)
  = omap buildFilterClause filters.
Proof.
  induction filters as [|f filters IH]; [done|].
  destruct (decide (schema.Operator f ∈ operators)) as [Hop|Hop].
  - rewrite filter_cons_True by done. simpl.
    destruct (buildFilterClause f); simpl; [f_equal|]; exact IH.
  - rewrite filter_cons_False by done. simpl.
    rewrite (buildFilterClause_unknown f Hop). exact IH.
Qed.

Lemma omap_None_Forall (filters : list schema.LogFilter) :
  omap buildFilterClause filters = []
  ↔ Forall (fun f => schema.Operator f ∉ operators) filters.
Proof.
  induction filters as [|f filters IH]; simpl.
  - split; [constructor|done].
  - rewrite Forall_cons, <- IH, <- buildFilterClause_None.
    destruct (buildFilterClause f); simpl; split; try done.
    + by intros [? ?].
    + by intros [_ ?].
Qed.

Lemma omap_length_le (filters : list schema.LogFilter) :
  (length (omap buildFilterClause filters) ≤ length filters)%nat.
Proof.
  induction filters as [|f filters IH]; [simpl; lia|].
  cbn. destruct (buildFilterClause f); cbn; fold (omap buildFilterClause filters); lia.
Qed.

(** X7.  The clause tells the filter: two filters that translate to the
    same clause are the same filter, so no two filters are merged by the
    translation. *)
Theorem buildFilterClause_inj (f1 f2 : schema.LogFilter) (clause : gmap string any) :
  buildFilterClause f1 = Some clause →
  buildFilterClause f2 = Some clause →
  f1 = f2.
Proof.
  destruct f1 as [F1 O1 V1], f2 as [F2 O2 V2]. unfold buildFilterClause; simpl.
  repeat case_bool_decide; subst; intros Hc1 Hc2;
    try discriminate Hc1; try discriminate Hc2;
    rewrite <- Hc1 in Hc2; clear Hc1; apply (inj Some) in Hc2 as Heq;
    apply map_singleton_inj in Heq as [Hkey Heq]; try discriminate Hkey;
    apply VMap_inj in Heq.
  - apply map_singleton_inj in Heq as [-> Heq]. by apply VString_inj in Heq as ->.
  - apply map_singleton_inj in Heq as [_ Heq]. apply VMap_inj in Heq.
    apply map_singleton_inj in Heq as [_ Heq]. apply VMap_inj in Heq.
    apply map_singleton_inj in Heq as [-> Heq]. by apply VString_inj in Heq as ->.
  - apply map_singleton_inj in Heq as [-> Heq]. apply VMap_inj in Heq.
    apply map_singleton_inj in Heq as [_ Heq]. apply VString_inj in Heq.
    simpl in Heq. injection Heq as Heq. by apply append_star_inj in Heq as ->.
  - apply map_singleton_inj in Heq as [-> Heq]. apply VMap_inj in Heq.
    apply map_singleton_inj in Heq as [_ Heq]. by apply VString_inj in Heq as ->.
Qed.

(** X8.  The built document has exactly the keys "query", "sort" and
    "size", and its size is a positive integer, whatever the limit of the
    query. *)
Theorem buildQuery_document_shape (ord : list (string * any)) (query : schema.LogQuery) :
  dom (buildQuery ord query) = documentKeys
  ∧ ∃ n, buildQuery ord query !! "size" = Some (VInt n) ∧ 0 < n.
Proof.
  split.
  - unfold buildQuery, documentKeys.
    destruct (0 <? schema.Limit query);
      rewrite !dom_insert_L, dom_singleton_L; set_solver.
  - rewrite buildQuery_lookup_size.
    destruct (0 <? schema.Limit query) eqn:Hlim; eexists; (split; [done|]).
    + by apply Z.ltb_lt.
    + lia.
Qed.

(** X9.  The must list is empty, so that the document matches every
    record, exactly when the query sets no time bound, no search text, no
    severity, no scope and no metadata, and every filter it carries has an
    unknown operator. *)
Theorem mustClauses_empty (ord : list (string * any)) (query : schema.LogQuery) :
  rangeOrder (schema.Metadata query) ord →
  mustClauses ord query = []
  ↔ IsZero (schema.Start query) = true ∧ IsZero (schema.End_ query) = true
    ∧ (∀ expression, schema.Expression query = Some expression →
         schema.Search expression = "" ∧ schema.SeverityIn expression = [])
    ∧ Forall (fun f => schema.Operator f ∉ operators) (queryFilters query)
    ∧ schema.Service (schema.Scope query) = ""
    ∧ schema.Environment (schema.Scope query) = ""
    ∧ schema.Team (schema.Scope query) = ""
    ∧ schema.Metadata query = ∅.
Proof.
  unfold rangeOrder. intros Hord.
  rewrite mustClauses_groups, !app_nil.
  assert (timeRangeClauses query = []
          ↔ IsZero (schema.Start query) = true ∧ IsZero (schema.End_ query) = true)
    as ->.
  { unfold timeRangeClauses.
    destruct (IsZero (schema.Start query)), (IsZero (schema.End_ query));
      simpl; split; try done; by intros [? ?]. }
  assert (metadataClauses ord = [] ↔ schema.Metadata query = ∅) as ->.
  { unfold metadataClauses. rewrite <- map_to_list_empty_iff.
    split; intros Hnil.
    - apply fmap_nil_inv in Hnil. rewrite Hnil in Hord.
      by apply Permutation_nil_l in Hord.
    - rewrite Hnil in Hord. by apply Permutation_nil_r in Hord as ->. }
  assert (filterClauses query = []
          ↔ Forall (fun f => schema.Operator f ∉ operators) (queryFilters query)) as ->.
  { unfold filterClauses, queryFilters.
    destruct (schema.Expression query); [apply omap_None_Forall|].
    split; [constructor|done]. }
  assert (searchClauses query = [] ∧ severityClauses query = []
          ↔ ∀ expression, schema.Expression query = Some expression →
              schema.Search expression = "" ∧ schema.SeverityIn expression = [])
    as Hexpr.
  { unfold searchClauses, severityClauses.
    destruct (schema.Expression query) as [e|]; [|by split].
    split.
    - intros [Hs Hv] expression [= <-]. split.
      + by case_bool_decide.
      + by destruct (schema.SeverityIn e).
    - intros He. destruct (He e eq_refl) as [-> ->]. done. }
  assert (scopeClauses query = []
          ↔ schema.Service (schema.Scope query) = ""
            ∧ schema.Environment (schema.Scope query) = ""
            ∧ schema.Team (schema.Scope query) = "") as ->.
  { unfold scopeClauses, scopeClause. rewrite !app_nil.
    repeat case_bool_decide; split; try done; intros (? & ? & ?); done. }
  rewrite <- Hexpr. tauto.
Qed.

(** X10.  The built document depends on the expression only through its
    search text, its severities and its filters with a known operator: a
    query without expression, and a query with any number of filters with
    unknown operators, build the document of the query whose expression
    is reduced to these. *)
Theorem buildQuery_effectiveExpression
    (ord : list (string * any)) (query : schema.LogQuery) :
  buildQuery ord query
  = buildQuery ord (withExpression query (Some (effectiveExpression query))).
Proof.
  assert (mustClauses ord query
          = mustClauses ord (withExpression query (Some (effectiveExpression query))))
    as Hsame.
  { rewrite !mustClauses_groups.
    unfold timeRangeClauses, searchClauses, severityClauses, filterClauses,
      scopeClauses, withExpression, effectiveExpression; simpl.
    destruct (schema.Expression query) as [e|]; simpl; [|done].
    by rewrite omap_known_filters. }
  unfold buildQuery. by rewrite Hsame.
Qed.

(** X11.  The number of clauses is at least the number of metadata
    entries and at most six more than the filters and the metadata
    entries together. *)
Theorem mustClauses_length_bounds (ord : list (string * any)) (query : schema.LogQuery) :
  rangeOrder (schema.Metadata query) ord →
  (size (schema.Metadata query) ≤ length (mustClauses ord query)
   ∧ length (mustClauses ord query)
     ≤ 6 + length (queryFilters query) + size (schema.Metadata query))%nat.
Proof.
  unfold rangeOrder. intros Hord.
  rewrite mustClauses_groups, !length_app.
  assert (length (metadataClauses ord) = size (schema.Metadata query)) as ->.
  { unfold metadataClauses. by rewrite length_fmap, Hord, length_map_to_list. }
  assert (length (timeRangeClauses query) ≤ 1)%nat
    by (unfold timeRangeClauses; destruct (_ && _); simpl; lia).
  assert (length (searchClauses query) ≤ 1)%nat
    by (unfold searchClauses; destruct (schema.Expression query);
        [case_bool_decide|]; simpl; lia).
  assert (length (severityClauses query) ≤ 1)%nat
    by (unfold severityClauses; destruct (schema.Expression query) as [e|];
        [destruct (schema.SeverityIn e)|]; simpl; lia).
  assert (length (filterClauses query) ≤ length (queryFilters query))%nat.
  { unfold filterClauses, queryFilters.
    destruct (schema.Expression query); [apply omap_length_le|simpl; lia]. }
  assert (length (scopeClauses query) ≤ 3)%nat.
  { unfold scopeClauses, scopeClause. rewrite !length_app.
    repeat case_bool_decide; simpl; lia. }
  lia.
Qed.

End QueryBuilderMore.

(** ** Further properties: the result normalizer *)

Section NormalizerMore.
Context `{rt : Runtime}.

Lemma map_eq_Some {V : Type} (m1 m2 : gmap string V) :
  (∀ k v, m1 !! k = Some v ↔ m2 !! k = Some v) → m1 = m2.
Proof. intros Hiff. apply map_eq; intros k. apply option_eq; intros v. apply Hiff. Qed.

Lemma LogEntry_eq (e1 e2 : schema.LogEntry.LogEntry) :
  schema.LogEntry.Timestamp e1 = schema.LogEntry.Timestamp e2 →
  schema.LogEntry.Message e1 = schema.LogEntry.Message e2 →
  schema.LogEntry.Severity e1 = schema.LogEntry.Severity e2 →
  schema.LogEntry.Service e1 = schema.LogEntry.Service e2 →
  schema.LogEntry.Labels e1 = schema.LogEntry.Labels e2 →
  schema.LogEntry.Fields e1 = schema.LogEntry.Fields e2 →
  schema.LogEntry.Metadata e1 = schema.LogEntry.Metadata e2 →
  e1 = e2.
Proof. destruct e1, e2; simpl; intros; by subst. Qed.

Lemma Source_withSource (source : gmap string any) (hit : esHit) :
  Source (withSource source hit) = source.
Proof. reflexivity. Qed.

Lemma skipped_not_in (key k : string) :
  key ∈ skippedNames → k ∉ skippedNames → k ≠ key.
Proof. intros Hin Hnot ->. done. Qed.

Lemma normalizeHit_any_order
    (labelOrd fieldOrd labelOrd' fieldOrd' : list (string * any)) (hit : esHit) :
  rangeOrder (Source hit) labelOrd → rangeOrder (Source hit) fieldOrd →
  rangeOrder (Source hit) labelOrd' → rangeOrder (Source hit) fieldOrd' →
  normalizeHit labelOrd fieldOrd hit = normalizeHit labelOrd' fieldOrd' hit.
Proof.
  intros Hl Hf Hl' Hf'. apply LogEntry_eq; try reflexivity.
  - apply map_eq_Some; intros k v.
    by rewrite (normalizeHit_labels labelOrd fieldOrd),
      (normalizeHit_labels labelOrd' fieldOrd').
  - apply map_eq_Some; intros k v.
    by rewrite (normalizeHit_fields labelOrd fieldOrd),
      (normalizeHit_fields labelOrd' fieldOrd').
Qed.

(** X12.  The normalized entry does not depend on the orders in which the
    two loops visit the source document: every pair of visiting orders
    gives the entry that the order of [map_to_list] gives. *)
Theorem normalizeHit_order_irrelevant
    (labelOrd fieldOrd labelOrd' fieldOrd' : list (string * any)) (hit : esHit) :
  rangeOrder (Source hit) labelOrd → rangeOrder (Source hit) fieldOrd →
  rangeOrder (Source hit) labelOrd' → rangeOrder (Source hit) fieldOrd' →
  normalizeHit labelOrd fieldOrd hit = normalizeHit labelOrd' fieldOrd' hit
  ∧ normalizeHit labelOrd fieldOrd hit = normalized hit.
Proof.
  intros Hl Hf Hl' Hf'. split.
  - by apply normalizeHit_any_order.
  - apply normalizeHit_any_order; by unfold rangeOrder.
Qed.

(** X13.  A value that is not a string under one of the names
    "@timestamp", "message", "severity", "level", "service" leaves no
    trace: the entry is the one the record gives without that key. *)
Theorem normalizeHit_non_string_lost
    (labelOrd fieldOrd labelOrd' fieldOrd' : list (string * any))
    (hit : esHit) (key : string) (value : any) :
  key ∈ skippedNames →
  Source hit !! key = Some value →
  isString value = false →
  rangeOrder (Source hit) labelOrd → rangeOrder (Source hit) fieldOrd →
  rangeOrder (delete key (Source hit)) labelOrd' →
  rangeOrder (delete key (Source hit)) fieldOrd' →
  normalizeHit labelOrd fieldOrd hit
  = normalizeHit labelOrd' fieldOrd' (withSource (delete key (Source hit)) hit).
Proof.
  intros Hkey Hval Hstr Hl Hf Hl' Hf'.
  assert (∀ k, sourceString (delete key (Source hit)) k = sourceString (Source hit) k)
    as Hsame.
  { intros k. unfold sourceString. destruct (decide (k = key)) as [->|Hne].
    - rewrite lookup_delete_eq, Hval. by destruct value.
    - by rewrite lookup_delete_ne. }
  apply LogEntry_eq.
  - unfold normalizeHit; simpl. by rewrite Hsame.
  - unfold normalizeHit; simpl. by rewrite Hsame.
  - unfold normalizeHit; simpl. by rewrite !Hsame.
  - unfold normalizeHit; simpl. by rewrite Hsame.
  - apply map_eq_Some; intros k v.
    rewrite (normalizeHit_labels labelOrd fieldOrd) by done.
    rewrite (normalizeHit_labels labelOrd' fieldOrd') by done. simpl.
    split; intros [Hk Hlook]; (split; [done|]);
      pose proof (skipped_not_in key k Hkey Hk);
      by rewrite lookup_delete_ne in * by done.
  - apply map_eq_Some; intros k v.
    rewrite (normalizeHit_fields labelOrd fieldOrd) by done.
    rewrite (normalizeHit_fields labelOrd' fieldOrd') by done. simpl.
    split; intros [Hk Hlook]; (split; [done|]);
      pose proof (skipped_not_in key k Hkey Hk);
      by rewrite lookup_delete_ne in * by done.
  - reflexivity.
Qed.

(** X14.  The metadata of an entry are exactly the provenance of the hit
    under "_index", "_id" and "_score"; the source document has no say in
    them: a source field named "_id" becomes a field of the entry and
    leaves the metadata alone. *)
Theorem normalizeHit_provenance
    (labelOrd fieldOrd : list (string * any)) (hit : esHit) :
  rangeOrder (Source hit) fieldOrd →
  let entry := normalizeHit labelOrd fieldOrd hit in
  dom (schema.LogEntry.Metadata entry) = provenanceKeys
  ∧ schema.LogEntry.Metadata entry !! "_index" = Some (VString (Index hit))
  ∧ schema.LogEntry.Metadata entry !! "_id" = Some (VString (ID hit))
  ∧ schema.LogEntry.Metadata entry !! "_score" = Some (VFloat (Score hit))
  ∧ (∀ key value, key ∈ provenanceKeys → Source hit !! key = Some value →
       schema.LogEntry.Fields entry !! key = Some value).
Proof.
  intros Hf entry. split_and!.
  - unfold entry, normalizeHit, provenanceKeys; simpl.
    rewrite !dom_insert_L, dom_singleton_L. set_solver.
  - unfold entry, normalizeHit; simpl. by simplify_map_eq.
  - unfold entry, normalizeHit; simpl. by simplify_map_eq.
  - unfold entry, normalizeHit; simpl. by simplify_map_eq.
  - intros key value Hkey Hsrc. apply normalizeHit_fields; [done|]. split; [|done].
    unfold provenanceKeys in Hkey. unfold skippedNames.
    rewrite !not_elem_of_cons.
    apply elem_of_union in Hkey as [Hkey|Hkey];
      [apply elem_of_union in Hkey as [Hkey|Hkey]|];
      apply elem_of_singleton in Hkey as ->;
      split_and!; try done; apply not_elem_of_nil.
Qed.

(** X15.  A source document that uses none of the five names comes back
    whole as the fields of its entry; and normalizing the fields of an
    entry again gives the same fields and the same labels. *)
Theorem normalizeHit_fields_fixpoint
    (labelOrd fieldOrd labelOrd' fieldOrd' : list (string * any)) (hit : esHit) :
  rangeOrder (Source hit) labelOrd → rangeOrder (Source hit) fieldOrd →
  let entry := normalizeHit labelOrd fieldOrd hit in
  ((∀ key, key ∈ skippedNames → Source hit !! key = None) →
     schema.LogEntry.Fields entry = Source hit)
  ∧ (rangeOrder (schema.LogEntry.Fields entry) labelOrd' →
     rangeOrder (schema.LogEntry.Fields entry) fieldOrd' →
     let again :=
       normalizeHit labelOrd' fieldOrd' (withSource (schema.LogEntry.Fields entry) hit) in
     schema.LogEntry.Fields again = schema.LogEntry.Fields entry
     ∧ schema.LogEntry.Labels again = schema.LogEntry.Labels entry).
Proof.
  intros Hl Hf entry. split.
  - intros Hfree. apply map_eq_Some; intros k v.
    unfold entry. rewrite (normalizeHit_fields labelOrd fieldOrd) by done.
    split; [by intros [_ ?]|]. intros Hsrc. split; [|done].
    intros Hk. rewrite (Hfree k Hk) in Hsrc. discriminate Hsrc.
  - intros Hl' Hf' again. split.
    + apply map_eq_Some; intros k v. unfold again.
      rewrite (normalizeHit_fields labelOrd' fieldOrd') by done.
      rewrite Source_withSource.
      split; [by intros [_ ?]|]. intros Hfield. split; [|done].
      unfold entry in Hfield.
      by apply (normalizeHit_fields labelOrd fieldOrd) in Hfield as [? _].
    + apply map_eq_Some; intros k v. unfold again.
      rewrite (normalizeHit_labels labelOrd' fieldOrd') by done.
      rewrite Source_withSource.
      unfold entry.
      rewrite (normalizeHit_labels labelOrd fieldOrd) by done.
      rewrite (normalizeHit_fields labelOrd fieldOrd) by done. tauto.
Qed.

End NormalizerMore.

(** ** Further properties: running a query *)

Section Querying.
Context `{rt : Runtime}.

Lemma normalizeHits_entries (hits : list esHit)
    (entries : list schema.LogEntry.LogEntry) (w : World) :
  faithfulRange →
  (normalizeHits hits entries w).1 = entries ++ (normalized <$> hits).
Proof.
  intros Hrange. revert entries w.
  induction hits as [|hit hits IH]; intros entries w; simpl.
  - by rewrite app_nil_r.
  - pose proof (Hrange (Source hit) w) as Hl.
    destruct (mapRange (Source hit) w) as [labelOrd w1]. simpl in Hl.
    pose proof (Hrange (Source hit) w1) as Hf.
    destruct (mapRange (Source hit) w1) as [fieldOrd w2]. simpl in Hf.
    rewrite IH, <- app_assoc. simpl. do 2 f_equal.
    apply normalizeHit_any_order; by unfold rangeOrder.
Qed.

(** X16.  When [Query] succeeds, the entries are the normalized hits of
    the response, one per hit and in the order of the hits (none for an
    empty result); the search was run on the provider's index pattern with
    the marshalled document built from the query, and its response had no
    error status. *)
Theorem Query_success (p : ElasticProvider) (query : schema.LogQuery)
    (w w' : World) (entries : list schema.LogEntry.LogEntry) :
  faithfulRange →
  Query p query w = (inr entries, w') →
  ∃ ord w0 queryBody res w1 hits,
    mapRange (schema.Metadata query) w = (ord, w0)
    ∧ rangeOrder (schema.Metadata query) ord
    ∧ json_Marshal (buildQuery ord query) = inr queryBody
    ∧ Search (client p) (IndexPattern (cfg p)) queryBody w0 = (inr res, w1)
    ∧ elasticsearch.IsError res = false
    ∧ json_Decode_esSearchResponse (elasticsearch.Body res) = inr hits
    ∧ entries = normalized <$> hits
    ∧ length entries = length hits.
Proof.
  intros Hrange. unfold Query.
  pose proof (Hrange (schema.Metadata query) w) as Hord.
  destruct (mapRange (schema.Metadata query) w) as [ord w0]. simpl in Hord.
  destruct (json_Marshal (buildQuery ord query)) as [err|queryBody] eqn:Hm;
    [discriminate|].
  destruct (Search (client p) (IndexPattern (cfg p)) queryBody w0)
    as [[err|res] w1] eqn:Hs; [discriminate|].
  destruct (elasticsearch.IsError res) eqn:He; [discriminate|].
  destruct (json_Decode_esSearchResponse (elasticsearch.Body res))
    as [err|hits] eqn:Hd; [discriminate|].
  pose proof (normalizeHits_entries hits [] w1 Hrange) as Hn.
  destruct (normalizeHits hits [] w1) as [es w2]. simpl in Hn.
  intros [= <- <-]. exists ord, w0, queryBody, res, w1, hits.
  split_and!; try done. by rewrite Hn, length_fmap.
Qed.

(** X17.  When [Query] fails, the error is one of four.  A document that
    cannot be marshalled is reported without any search being run; a
    failed search and an undecodable response body are reported with
    their cause wrapped; a response with an error status is reported by
    its text, whatever its body holds. *)
Theorem Query_failure (p : ElasticProvider) (query : schema.LogQuery)
    (w w' : World) (err : error) :
  Query p query w = (inl err, w') →
  ∃ ord w0,
    mapRange (schema.Metadata query) w = (ord, w0)
    ∧ ((∃ cause,
          json_Marshal (buildQuery ord query) = inl cause
          ∧ w' = w0
          ∧ err = wrapError (String.append "failed to marshal query: " (Error cause)) cause)
       ∨ (∃ queryBody cause,
            json_Marshal (buildQuery ord query) = inr queryBody
            ∧ Search (client p) (IndexPattern (cfg p)) queryBody w0 = (inl cause, w')
            ∧ err = wrapError
                      (String.append "elasticsearch query failed: " (Error cause)) cause)
       ∨ (∃ queryBody res,
            json_Marshal (buildQuery ord query) = inr queryBody
            ∧ Search (client p) (IndexPattern (cfg p)) queryBody w0 = (inr res, w')
            ∧ elasticsearch.IsError res = true
            ∧ err = errorString (String.append "elasticsearch returned error: "
                                               (elasticsearch.String res)))
       ∨ (∃ queryBody res cause,
            json_Marshal (buildQuery ord query) = inr queryBody
            ∧ Search (client p) (IndexPattern (cfg p)) queryBody w0 = (inr res, w')
            ∧ elasticsearch.IsError res = false
            ∧ json_Decode_esSearchResponse (elasticsearch.Body res) = inl cause
            ∧ err = wrapError
                      (String.append "failed to parse response: " (Error cause)) cause)).
Proof.
  unfold Query.
  destruct (mapRange (schema.Metadata query) w) as [ord w0].
  intros Hq. exists ord, w0. split; [done|].
  destruct (json_Marshal (buildQuery ord query)) as [cause|queryBody] eqn:Hm.
  { injection Hq as <- <-. left. by exists cause. }
  right.
  destruct (Search (client p) (IndexPattern (cfg p)) queryBody w0)
    as [[cause|res] w1] eqn:Hs.
  { injection Hq as <- <-. left. by exists queryBody, cause. }
  right.
  destruct (elasticsearch.IsError res) eqn:He.
  { injection Hq as <- <-. left. by exists queryBody, res. }
  right.
  destruct (json_Decode_esSearchResponse (elasticsearch.Body res))
    as [cause|hits] eqn:Hd.
  { injection Hq as <- <-. by exists queryBody, res, cause. }
  destruct (normalizeHits hits [] w1) as [es w2]. discriminate Hq.
Qed.

End Querying.

(** ** Further properties: the transport loop *)

Section TransportMore.
Context `{rt : Runtime}.

Lemma serve_wellFormed (req : plugin.rpcRequest) (st : state) :
  ∃ resp, stdout (serve req st) = stdout st ++ [resp] ∧ wellFormed resp.
Proof.
  unfold serve, ensureProvider, wellFormed.
  destruct (provider st) as [prov|].
  - destruct (bool_decide _); [|eexists; split; [done|by left]].
    destruct (json_Unmarshal_LogQuery _) as [err|query];
      [eexists; split; [done|by left]|].
    destruct (Query prov query (world st)) as [[err|entries] w];
      eexists; (split; [done|]); [by left|by right].
  - destruct (New (plugin.Config req) (world st)) as [[err|prov] w];
      [eexists; split; [done|by left]|].
    simpl. destruct (bool_decide _); [|eexists; split; [done|by left]].
    destruct (json_Unmarshal_LogQuery _) as [err|query];
      [eexists; split; [done|by left]|].
    destruct (Query prov query w) as [[err|entries] w'];
      eexists; (split; [done|]); [by left|by right].
Qed.

(** X18.  Whatever the input, the loop only appends to its output: what
    was written stays, at most one response is added per decode result,
    and no response carries both a result and an error text. *)
Theorem main_output_appended (stdin : list (error + plugin.rpcRequest)) (st : state) :
  ∃ resps,
    stdout (main stdin st) = stdout st ++ resps
    ∧ (length resps ≤ length stdin)%nat
    ∧ Forall wellFormed resps.
Proof.
  revert st. induction stdin as [|[err|req] stdin IH]; intros st.
  - exists []. simpl. by rewrite app_nil_r.
  - simpl. destruct (errors_Is_EOF err).
    + exists []. simpl. rewrite app_nil_r. split_and!; [done|lia|done].
    + exists [errorResponse err]. simpl. split_and!; [done|lia|].
      repeat constructor.
  - rewrite main_cons.
    destruct (serve_wellFormed req st) as (resp & Hresp & Hwf).
    destruct (IH (serve req st)) as (resps & Hout & Hlen & Hall).
    exists (resp :: resps). rewrite Hout, Hresp, <- app_assoc. simpl.
    split_and!; [done|lia|by constructor].
Qed.

Lemma serve_turnedDown (req : plugin.rpcRequest) (st : state) (prov : ElasticProvider) :
  provider st = Some prov → turnedDown req →
  ∃ err, serve req st = writeErr err st.
Proof.
  intros Hprov Hdown. unfold serve, ensureProvider. rewrite Hprov.
  case_bool_decide as Hm.
  - destruct Hdown as [?|[err Herr]]; [done|]. rewrite Herr. by exists err.
  - by eexists.
Qed.

(** X19.  Once the provider is set, requests with an unknown method or
    with a payload that does not decode are answered without anything
    outside the process being touched: each gets one error response, the
    world and the provider are as before, and the loop goes on. *)
Theorem main_turnedDown (requests : list plugin.rpcRequest) (st : state)
    (prov : ElasticProvider) :
  provider st = Some prov →
  Forall turnedDown requests →
  world (main (inr <$> requests) st) = world st
  ∧ provider (main (inr <$> requests) st) = Some prov
  ∧ ∃ errs, length errs = length requests
            ∧ stdout (main (inr <$> requests) st) = stdout st ++ (errorResponse <$> errs).
Proof.
  intros Hprov Hall. revert st Hprov.
  induction Hall as [|req requests Hdown _ IH]; intros st Hprov.
  - split_and!; [done|done|]. exists []. simpl. by rewrite app_nil_r.
  - rewrite fmap_cons, main_cons.
    destruct (serve_turnedDown req st prov Hprov Hdown) as [err Hserve].
    rewrite Hserve.
    destruct (IH (writeErr err st) Hprov) as (Hw & Hp & errs & Hlen & Hout).
    split_and!; [done|done|].
    exists (err :: errs). split; [simpl; by rewrite Hlen|].
    rewrite Hout. simpl. by rewrite <- app_assoc.
Qed.

End TransportMore.

(** ** Runs on the closed world *)

#[local] Existing Instance demoRuntime.

(** A run of C1 on [demoQuery]. *)
Lemma buildQuery_clause_order_demo :
  buildQuery demoOrder demoQuery !! "query"
    = Some (VMap {[ "bool" := VMap {[ "must" := VMaps
        (timeRangeClauses demoQuery ++ searchClauses demoQuery
         ++ severityClauses demoQuery ++ filterClauses demoQuery
         ++ scopeClauses demoQuery ++ metadataClauses demoOrder) ]} ]})
  ∧ metadataClauses demoOrder ≡ₚ termClause <$> map_to_list (schema.Metadata demoQuery)
  ∧ (∀ expression, schema.Expression demoQuery = Some expression →
       Forall (λ filter, schema.Operator filter ∈ operators) (schema.Filters expression) →
       Some <$> filterClauses demoQuery = buildFilterClause <$> schema.Filters expression)
  ∧ buildQuery demoOrder demoQuery !! "sort"
    = Some (VMaps [ {[ "@timestamp" := VMap {[ "order" := VString "desc" ]} ]} ]).
Proof.
  apply (buildQuery_clause_order demoOrder demoQuery).
  unfold rangeOrder. vm_compute. reflexivity.
Defined.

(** A run of C3: [demoQuery] carries a filter with the operator "~". *)
Lemma unknown_operator_no_clause_demo :
  let dropped := {| schema.Field := "url"; schema.Operator := "~"; schema.Value := "/api" |} in
  let kept :=
    [ {| schema.Field := "status"; schema.Operator := "="; schema.Value := "500" |};
      {| schema.Field := "message"; schema.Operator := "contains"; schema.Value := "boom" |} ] in
  buildFilterClause dropped = None
  ∧ buildQuery demoOrder demoQuery
    = buildQuery demoOrder (withFilters demoQuery kept)
  ∧ length (mustClauses demoOrder demoQuery)
    = length (mustClauses demoOrder (withFilters demoQuery kept)).
Proof.
  simpl.
  eapply (unknown_operator_no_clause demoOrder demoQuery _
            [ {| schema.Field := "status"; schema.Operator := "="; schema.Value := "500" |} ]
            [ {| schema.Field := "message"; schema.Operator := "contains"; schema.Value := "boom" |} ]
            {| schema.Field := "url"; schema.Operator := "~"; schema.Value := "/api" |}).
  - unfold operators. by apply (bool_decide_unpack _).
  - reflexivity.
  - reflexivity.
Defined.

(** A run of C7: limit 3, and no limit at all. *)
Lemma buildQuery_size_demo :
  buildQuery demoOrder demoQuery !! "size" = Some (VInt 3)
  ∧ buildQuery [] emptyQuery !! "size" = Some (VInt 1000).
Proof.
  destruct (buildQuery_size demoOrder demoQuery) as (_ & _ & _ & Hthree).
  destruct (buildQuery_size [] emptyQuery) as (_ & _ & Hdefault & _).
  split.
  - apply Hthree. reflexivity.
  - apply Hdefault. simpl. lia.
Defined.

(** C9 as stated fails: the two orders in which the runtime may visit the
    two metadata entries of [demoQuery] give two different documents. *)
Lemma buildQuery_metadata_order_observable :
  rangeOrder (schema.Metadata demoQuery) demoOrder
  ∧ rangeOrder (schema.Metadata demoQuery) demoOrderRev
  ∧ buildQuery demoOrder demoQuery
    ≠ buildQuery demoOrderRev demoQuery.
Proof.
  split_and!.
  - unfold rangeOrder. vm_compute. reflexivity.
  - unfold rangeOrder. vm_compute. apply perm_swap.
  - intros H. apply (f_equal (λ doc, doc !! "query")) in H.
    vm_compute in H. discriminate H.
Qed.

(** A run of amended C9 on the two orders of [demoQuery]. *)
Lemma buildQuery_stable_up_to_metadata_order_demo :
  metadataClauses demoOrder ≡ₚ metadataClauses demoOrderRev
  ∧ buildQuery demoOrder demoQuery !! "size"
    = buildQuery demoOrderRev demoQuery !! "size".
Proof.
  destruct (buildQuery_stable_up_to_metadata_order
              demoOrder demoOrderRev demoQuery) as (_ & Hperm & _ & Hsize & _).
  - unfold rangeOrder. vm_compute. reflexivity.
  - unfold rangeOrder. vm_compute. apply perm_swap.
  - split; [exact Hperm | exact Hsize].
Defined.

(** A run of C4: [demoHit] has level "warn" and no severity field;
    [levelHit] has both, and its severity wins. *)
Lemma normalizeHit_severity_demo :
  schema.LogEntry.Severity
    (normalizeHit (map_to_list (Source demoHit)) (map_to_list (Source demoHit)) demoHit)
  = "warn"
  ∧ schema.LogEntry.Severity
      (normalizeHit (map_to_list (Source levelHit)) (map_to_list (Source levelHit)) levelHit)
    = "error".
Proof.
  destruct (normalizeHit_severity
              (map_to_list (Source demoHit)) (map_to_list (Source demoHit)) demoHit)
    as (_ & _ & _ & Hwarn & _).
  destruct (normalizeHit_severity
              (map_to_list (Source levelHit)) (map_to_list (Source levelHit)) levelHit)
    as (_ & _ & _ & _ & Hboth).
  split.
  - apply Hwarn; reflexivity.
  - apply (Hboth "error" "warn"); reflexivity.
Defined.

(** A run of C5 on [demoHit]: the label "environment" is also a field. *)
Lemma normalizeHit_field_partition_demo :
  schema.LogEntry.Fields
    (normalizeHit (map_to_list (Source demoHit)) (map_to_list (Source demoHit)) demoHit)
    !! "environment" = Some (VString "production").
Proof.
  destruct (normalizeHit_field_partition
              (map_to_list (Source demoHit)) (map_to_list (Source demoHit)) demoHit)
    as (Hsubset & _ & _).
  - by unfold rangeOrder.
  - by unfold rangeOrder.
  - apply Hsubset. reflexivity.
Defined.

(** C6 as stated fails: "level" is not one of the four promoted names,
    yet the level of [levelHit] is not among the fields of its entry. *)
Lemma normalizeHit_drops_level :
  let ord := map_to_list (Source levelHit) in
  rangeOrder (Source levelHit) ord
  ∧ ¬ (∀ key value, Source levelHit !! key = Some value →
         key ∉ promotedNames →
         schema.LogEntry.Fields (normalizeHit ord ord levelHit) !! key = Some value).
Proof.
  split; [by unfold rangeOrder|].
  intros Hkept. specialize (Hkept "level" (VString "warn")).
  assert ("level" ∉ promotedNames) as Hlevel
    by (unfold promotedNames; by apply (bool_decide_unpack _)).
  specialize (Hkept eq_refl Hlevel). vm_compute in Hkept. discriminate Hkept.
Qed.

(** A run of amended C6 on [demoHit]: the non-string "status" is kept. *)
Lemma normalizeHit_fields_complete_demo :
  schema.LogEntry.Fields
    (normalizeHit (map_to_list (Source demoHit)) (map_to_list (Source demoHit)) demoHit)
    !! "status" = Some (VInt 500).
Proof.
  destruct (normalizeHit_fields_complete
              (map_to_list (Source demoHit)) (map_to_list (Source demoHit)) demoHit)
    as (Hkept & _).
  - by unfold rangeOrder.
  - apply Hkept; [reflexivity|].
    unfold skippedNames. by apply (bool_decide_unpack _).
Defined.

(** A run of C2: addresses with one string among them, and an API key
    together with user name and password.  Validation passes, the client
    is created and pinged, and the provider comes back after one round
    trip; with [downConfig] validation passes too and the ping fails. *)
Lemma New_validation_demo :
  (New demoConfig bootWorld = connect (parseConfig demoConfig) bootWorld
   ∧ (New demoConfig bootWorld).1 ≠ inl configError)
  ∧ New demoConfig bootWorld = (inr demoProvider, 1%nat)
  ∧ New downConfig bootWorld
    = (inl (wrapError "failed to connect to Elasticsearch: connection refused"
              (errorString "connection refused")), 1%nat).
Proof.
  destruct (New_validation demoConfig bootWorld) as (_ & Hpass & Hcalls).
  destruct (New_validation downConfig bootWorld) as (_ & _ & Hdown).
  assert (∃ addrs addr,
            demoConfig !! "addresses" = Some (VSlice addrs) ∧ VString addr ∈ addrs)
    as Hdemo.
  { exists [VInt 9200; VString "http://localhost:9200"], "http://localhost:9200".
    split; [reflexivity|]. repeat constructor. }
  split; [|split].
  - apply Hpass. by left.
  - destruct (Hcalls (or_introl Hdemo)) as (_ & _ & Hok).
    apply (Hok demoClient bootWorld demoResponse); reflexivity.
  - destruct Hdown as (_ & Hping & _).
    + left. exists [VString "http://down:9200"], "http://down:9200".
      split; [reflexivity|]. repeat constructor.
    + apply (Hping (clientConfig (parseConfig downConfig) : @Client demoRuntime)
               bootWorld (errorString "connection refused")); reflexivity.
Defined.

(** A run of C8: one request, then either a record that does not parse
    or an end of stream that reaches the loop wrapped in another error. *)
Lemma main_end_of_stream_and_decode_failure_demo :
  let garbage := errorString "invalid character" in
  let eof := wrapError "read |0: EOF" io_EOF in
  stdout (main ((inr <$> [demoRequest]) ++ [inl garbage; inr demoRequest]) bootState)
  = stdout (main (inr <$> [demoRequest]) bootState)
    ++ [ {| plugin.Result := None; plugin.Error := "invalid character" |} ]
  ∧ main ((inr <$> [demoRequest]) ++ [inl eof; inr demoRequest]) bootState
    = main (inr <$> [demoRequest]) bootState.
Proof.
  intros garbage eof.
  destruct (main_end_of_stream_and_decode_failure [demoRequest] bootState)
    as (_ & Heof & Hfail & _).
  split.
  - apply (Hfail garbage [inr demoRequest]). reflexivity.
  - apply (Heof eof [inr demoRequest]). reflexivity.
Defined.

(** A run of C10.  With the provider set by a first request, replacing
    every later config by the empty one changes nothing, [ensureProvider]
    hands out the provider for the empty config, and a second query that
    carries the empty config is answered with the hit of the closed
    world; before any provider exists, a request whose backend is down
    leaves the provider unset, a request with a valid config sets it, and
    a request for an unknown method with an empty config is answered with
    the configuration error. *)
Lemma provider_memoized_demo :
  let ready := serve demoRequest bootState in
  let later := [inr strayRequest; inr (withConfig downConfig demoRequest)] in
  main (reconfigure (fun _ => ∅) later) ready = main later ready
  ∧ provider (serve (withConfig downConfig demoRequest) bootState) = None
  ∧ is_Some (provider (serve demoRequest bootState))
  ∧ stdout (serve strayRequest bootState)
    = [ {| plugin.Result := None;
           plugin.Error := "either 'addresses' or 'cloudID' must be provided" |} ]
  ∧ provider (serve strayRequest bootState) = None
  ∧ ensureProvider ∅ ready = (inr demoProvider, ready)
  ∧ serve (withConfig ∅ demoRequest) ready
    = write (inr [normalized demoHit]) (setWorld ready 3%nat)
  ∧ ensureProvider downConfig bootState
    = (inl (wrapError "failed to connect to Elasticsearch: connection refused"
              (errorString "connection refused")), setWorld bootState 1%nat)
  ∧ ensureProvider demoConfig bootState
    = (inr demoProvider,
       {| provider := Some demoProvider; stdout := []; world := 1%nat |})
  ∧ serve demoRequest bootState
    = serve demoRequest
        {| provider := Some demoProvider; stdout := []; world := 1%nat |}.
Proof.
  intros ready later.
  destruct (provider_memoized ready) as (Hready & _ & _ & _ & Hgiven & Hserved & _).
  destruct (provider_memoized bootState)
    as (_ & Hfail & Hok & Hinvalid & _ & _ & Hretry & Hstore & Hfirst).
  split_and!.
  - eapply Hready. reflexivity.
  - eapply Hfail; reflexivity.
  - eexists. eapply Hok; reflexivity.
  - apply (Hinvalid strayRequest); reflexivity.
  - apply (Hinvalid strayRequest); reflexivity.
  - apply (Hgiven demoProvider ∅). reflexivity.
  - apply (Hserved demoProvider (withConfig ∅ demoRequest) emptyQuery); reflexivity.
  - apply (Hretry downConfig); reflexivity.
  - apply (Hstore demoConfig demoProvider); reflexivity.
  - apply (Hfirst demoRequest demoProvider); reflexivity.
Defined.

(** The transport scenario of the specification on the closed world: one
    [log.query] request, then end of stream, gives one response record. *)
Example transport_scenario :
  let ord := map_to_list (Source demoHit) in
  stdout (main [inr demoRequest] bootState)
  = [ {| plugin.Result := Some [normalizeHit ord ord demoHit]; plugin.Error := "" |} ]
  ∧ world (main [inr demoRequest] bootState) = 2%nat.
Proof. split; reflexivity. Qed.

(** Once the provider exists, later requests are served by it whatever
    config they carry: here the stray config is empty. *)
Example transport_reuse :
  (plugin.Error <$> stdout (main [inr demoRequest; inr strayRequest] bootState))
  = [""; "unknown method: log.tail"].
Proof. reflexivity. Qed.

(** A failed construction is attempted again by the next request. *)
Example transport_retry :
  (plugin.Error <$> stdout
     (main [inr (withConfig downConfig demoRequest); inr demoRequest] bootState))
  = ["failed to connect to Elasticsearch: connection refused"; ""].
Proof. reflexivity. Qed.

(** ** The repository's unit tests, run on the definitions *)

Example TestParseConfig_basic :
  parseConfig {[ "addresses" := VSlice [VString "http://localhost:9200"];
                 "username" := VString "elastic";
                 "password" := VString "changeme";
                 "indexPattern" := VString "logs-*" ]}
  = {| Addresses := ["http://localhost:9200"]; Username := "elastic";
       Password := "changeme"; APIKey := ""; CloudID := ""; IndexPattern := "logs-*" |}.
Proof. reflexivity. Qed.

Example TestParseConfig_cloud :
  parseConfig {[ "cloudID" := VString "my-cloud:dXMtY2VudHJhbDE";
                 "apiKey" := VString "id:key" ]}
  = {| Addresses := []; Username := ""; Password := ""; APIKey := "id:key";
       CloudID := "my-cloud:dXMtY2VudHJhbDE"; IndexPattern := "logs-*" |}.
Proof. reflexivity. Qed.

Example TestParseConfig_default :
  parseConfig ∅
  = {| Addresses := []; Username := ""; Password := ""; APIKey := "";
       CloudID := ""; IndexPattern := "logs-*" |}.
Proof. reflexivity. Qed.

Example TestBuildFilterClause_equals :
  buildFilterClause
    {| schema.Field := "status"; schema.Operator := "="; schema.Value := "200" |}
  = Some {[ "term" := VMap {[ "status" := VString "200" ]} ]}.
Proof. reflexivity. Qed.

Example TestBuildFilterClause_not_equals :
  buildFilterClause
    {| schema.Field := "status"; schema.Operator := "!="; schema.Value := "200" |}
  = Some {[ "bool" := VMap {[ "must_not" := VMap
             {[ "term" := VMap {[ "status" := VString "200" ]} ]} ]} ]}.
Proof. reflexivity. Qed.

Example TestBuildFilterClause_contains :
  buildFilterClause
    {| schema.Field := "message"; schema.Operator := "contains"; schema.Value := "error" |}
  = Some {[ "wildcard" := VMap {[ "message" := VMap {[ "value" := VString "*error*" ]} ]} ]}.
Proof. reflexivity. Qed.

Example TestBuildFilterClause_regex :
  buildFilterClause
    {| schema.Field := "url"; schema.Operator := "regex"; schema.Value := "/api/.*" |}
  = Some {[ "regexp" := VMap {[ "url" := VMap {[ "value" := VString "/api/.*" ]} ]} ]}.
Proof. reflexivity. Qed.

Example TestNormalizeHit :
  let source : gmap string any :=
    {[ "@timestamp" := VString "2023-10-01T12:00:00Z";
       "message" := VString "Test log message";
       "severity" := VString "error";
       "service" := VString "api-gateway";
       "environment" := VString "production";
       "status" := VString "500" ]} in
  let hit := {| Index := "logs-2023.10.01"; ID := "abc123"; Score := 0; Source := source |} in
  let entry := normalizeHit (map_to_list source) (map_to_list source) hit in
  schema.LogEntry.Message entry = "Test log message"
  ∧ schema.LogEntry.Severity entry = "error"
  ∧ schema.LogEntry.Service entry = "api-gateway"
  ∧ IsZero (schema.LogEntry.Timestamp entry) = false
  ∧ schema.LogEntry.Metadata entry !! "_index" = Some (VString "logs-2023.10.01")
  ∧ schema.LogEntry.Labels entry !! "environment" = Some "production".
Proof. repeat split; reflexivity. Qed.

(** ** Runs of the further properties *)

(** A run of X1: a "timeout" key changes nothing. *)
Lemma parseConfig_ignores_other_keys_demo :
  parseConfig (<["timeout" := VInt 30]> demoConfig) = parseConfig demoConfig
  ∧ New (<["timeout" := VInt 30]> demoConfig) bootWorld = New demoConfig bootWorld.
Proof.
  apply (parseConfig_ignores_other_keys demoConfig "timeout" (VInt 30) bootWorld).
  unfold knownConfigKeys. by apply (bool_decide_unpack _).
Defined.

(** A run of X2: an empty and a non-empty index pattern. *)
Lemma parseConfig_IndexPattern_demo :
  IndexPattern (parseConfig {[ "indexPattern" := VString "" ]}) = "logs-*"
  ∧ IndexPattern (parseConfig {[ "indexPattern" := VString "logs-app" ]}) = "logs-app".
Proof.
  destruct (parseConfig_IndexPattern {[ "indexPattern" := VString "" ]})
    as (_ & _ & Hdefault).
  destruct (parseConfig_IndexPattern {[ "indexPattern" := VString "logs-app" ]})
    as (_ & Hgiven & _).
  split.
  - apply Hdefault. right. reflexivity.
  - apply Hgiven; [reflexivity|discriminate].
Defined.


(** A run of X4: [demoConfig] sets an API key next to user name and
    password. *)
Lemma clientConfig_precedence_demo :
  elasticsearch.Username (clientConfig (parseConfig demoConfig)) = ""
  ∧ elasticsearch.Password (clientConfig (parseConfig demoConfig)) = "".
Proof.
  destruct (clientConfig_precedence (parseConfig demoConfig)) as (_ & Hkey & _).
  apply Hkey. discriminate.
Defined.

(** A run of X5: construction from [demoConfig] in the closed world. *)
Lemma New_success_demo : New demoConfig bootWorld = (inr demoProvider, 1%nat).
Proof.
  apply (New_success demoConfig bootWorld 1%nat demoProvider).
  split_and!.
  - left. discriminate.
  - discriminate.
  - exists demoClient, bootWorld, demoResponse.
    split_and!; reflexivity.
Defined.

(** A run of X6: the backend of [downConfig] does not answer the ping. *)
Lemma New_failure_demo :
  let err := wrapError "failed to connect to Elasticsearch: connection refused"
               (errorString "connection refused") in
  (err = configError ∧ (1%nat : @World demoRuntime) = bootWorld
     ∧ Addresses (parseConfig downConfig) = [] ∧ CloudID (parseConfig downConfig) = "")
  ∨ (∃ cause,
       NewClient (clientConfig (parseConfig downConfig)) bootWorld = (inl cause, 1%nat)
       ∧ err = wrapError
                 (String.append "failed to create Elasticsearch client: " (Error cause))
                 cause)
  ∨ (∃ c w1 cause,
       NewClient (clientConfig (parseConfig downConfig)) bootWorld = (inr c, w1)
       ∧ Ping c w1 = (inl cause, 1%nat)
       ∧ err = wrapError
                 (String.append "failed to connect to Elasticsearch: " (Error cause))
                 cause).
Proof.
  intros err. apply (New_failure downConfig bootWorld 1%nat err). reflexivity.
Defined.

(** A run of X7 on the "contains" filter of [demoQuery]. *)
Lemma buildFilterClause_inj_demo :
  let f := {| schema.Field := "message"; schema.Operator := "contains";
              schema.Value := "boom" |} in
  f = f.
Proof.
  intros f.
  apply (buildFilterClause_inj f f
           {[ "wildcard" := VMap {[ "message" := VMap {[ "value" := VString "*boom*" ]} ]} ]});
    reflexivity.
Defined.

(** A run of X9: a query whose only filter has the operator "~". *)
Lemma mustClauses_empty_demo : mustClauses [] strayFilterQuery = [].
Proof.
  apply (mustClauses_empty [] strayFilterQuery); [by unfold rangeOrder|].
  split_and!; try reflexivity.
  - intros expression [= <-]. split; reflexivity.
  - repeat constructor. unfold operators. by apply (bool_decide_unpack _).
Defined.

(** A run of X11 on [demoQuery]: between 2 and 11 clauses. *)
Lemma mustClauses_length_bounds_demo :
  (2 ≤ length (mustClauses demoOrder demoQuery)
   ∧ length (mustClauses demoOrder demoQuery) ≤ 11)%nat.
Proof.
  apply (mustClauses_length_bounds demoOrder demoQuery).
  unfold rangeOrder. vm_compute. reflexivity.
Defined.

(** A run of X12: [demoHit] visited forwards and backwards. *)
Lemma normalizeHit_order_irrelevant_demo :
  let ord := map_to_list (Source demoHit) in
  normalizeHit ord ord demoHit = normalizeHit (rev ord) (rev ord) demoHit.
Proof.
  intros ord.
  apply (normalizeHit_order_irrelevant ord ord (rev ord) (rev ord) demoHit);
    unfold rangeOrder, ord; try reflexivity; symmetry; apply Permutation_rev.
Defined.

(** A run of X13: the numeric message of [oddHit]. *)
Lemma normalizeHit_non_string_lost_demo :
  let source := Source oddHit in
  let rest := delete "message" source in
  normalizeHit (map_to_list source) (map_to_list source) oddHit
  = normalizeHit (map_to_list rest) (map_to_list rest) (withSource rest oddHit).
Proof.
  intros source rest.
  apply (normalizeHit_non_string_lost
           (map_to_list source) (map_to_list source) (map_to_list rest) (map_to_list rest)
           oddHit "message" (VInt 42)).
  - unfold skippedNames. by apply (bool_decide_unpack _).
  - reflexivity.
  - reflexivity.
  - by unfold rangeOrder.
  - by unfold rangeOrder.
  - by unfold rangeOrder.
  - by unfold rangeOrder.
Defined.

(** A run of X14: the source of [oddHit] has a field named "_id". *)
Lemma normalizeHit_provenance_demo :
  let ord := map_to_list (Source oddHit) in
  schema.LogEntry.Metadata (normalizeHit ord ord oddHit) !! "_id" = Some (VString "ghi789")
  ∧ schema.LogEntry.Fields (normalizeHit ord ord oddHit) !! "_id" = Some (VString "x").
Proof.
  intros ord.
  destruct (normalizeHit_provenance ord ord oddHit) as (_ & _ & Hid & _ & Hfield).
  - by unfold rangeOrder.
  - split; [exact Hid|]. apply Hfield; [|reflexivity].
    unfold provenanceKeys. by apply (bool_decide_unpack _).
Defined.

(** A run of X15: the fields of [levelHit], normalized again. *)
Lemma normalizeHit_fields_fixpoint_demo :
  let ord := map_to_list (Source levelHit) in
  let entry := normalizeHit ord ord levelHit in
  let ord' := map_to_list (schema.LogEntry.Fields entry) in
  let again := normalizeHit ord' ord' (withSource (schema.LogEntry.Fields entry) levelHit) in
  schema.LogEntry.Fields again = schema.LogEntry.Fields entry
  ∧ schema.LogEntry.Labels again = schema.LogEntry.Labels entry.
Proof.
  intros ord entry ord' again.
  destruct (normalizeHit_fields_fixpoint ord ord ord' ord' levelHit) as (_ & Hagain).
  - by unfold rangeOrder.
  - by unfold rangeOrder.
  - apply Hagain; by unfold rangeOrder.
Defined.

(** A run of X16: the empty query against the closed world's one hit. *)
Lemma Query_success_demo :
  ∃ ord w0 queryBody res w1 hits,
    mapRange (schema.Metadata emptyQuery) bootWorld = (ord, w0)
    ∧ rangeOrder (schema.Metadata emptyQuery) ord
    ∧ json_Marshal (buildQuery ord emptyQuery) = inr queryBody
    ∧ Search (client demoProvider) (IndexPattern (cfg demoProvider)) queryBody w0
      = (inr res, w1)
    ∧ elasticsearch.IsError res = false
    ∧ json_Decode_esSearchResponse (elasticsearch.Body res) = inr hits
    ∧ [normalized demoHit] = normalized <$> hits
    ∧ length [normalized demoHit] = length hits.
Proof.
  apply (Query_success demoProvider emptyQuery bootWorld 1%nat [normalized demoHit]).
  - intros m w. by unfold rangeOrder.
  - reflexivity.
Defined.

(** A run of X17: a search answered with status 503. *)
Lemma Query_failure_demo :
  let err := errorString "elasticsearch returned error: [503 Service Unavailable]" in
  @Query failingRuntime failingProvider emptyQuery 0%nat = (inl err, 1%nat)
  ∧ ∃ ord w0,
      @mapRange failingRuntime (schema.Metadata emptyQuery) 0%nat = (ord, w0)
      ∧ ((∃ cause,
            @json_Marshal failingRuntime (@buildQuery failingRuntime ord emptyQuery)
            = inl cause
            ∧ 1%nat = w0
            ∧ err = wrapError (String.append "failed to marshal query: " (Error cause)) cause)
         ∨ (∃ queryBody cause,
              @json_Marshal failingRuntime (@buildQuery failingRuntime ord emptyQuery)
              = inr queryBody
              ∧ @Search failingRuntime (client failingProvider)
                  (IndexPattern (cfg failingProvider)) queryBody w0 = (inl cause, 1%nat)
              ∧ err = wrapError
                        (String.append "elasticsearch query failed: " (Error cause)) cause)
         ∨ (∃ queryBody res,
              @json_Marshal failingRuntime (@buildQuery failingRuntime ord emptyQuery)
              = inr queryBody
              ∧ @Search failingRuntime (client failingProvider)
                  (IndexPattern (cfg failingProvider)) queryBody w0 = (inr res, 1%nat)
              ∧ elasticsearch.IsError res = true
              ∧ err = errorString (String.append "elasticsearch returned error: "
                                                 (elasticsearch.String res)))
         ∨ (∃ queryBody res cause,
              @json_Marshal failingRuntime (@buildQuery failingRuntime ord emptyQuery)
              = inr queryBody
              ∧ @Search failingRuntime (client failingProvider)
                  (IndexPattern (cfg failingProvider)) queryBody w0 = (inr res, 1%nat)
              ∧ elasticsearch.IsError res = false
              ∧ @json_Decode_esSearchResponse failingRuntime (elasticsearch.Body res)
                = inl cause
              ∧ err = wrapError
                        (String.append "failed to parse response: " (Error cause)) cause)).
Proof.
  intros err. split; [reflexivity|].
  apply (@Query_failure failingRuntime failingProvider emptyQuery 0%nat 1%nat err).
  reflexivity.
Defined.

(** A run of X19: with the provider set by a first request, a request
    for an unknown method and a request with a garbled payload. *)
Lemma main_turnedDown_demo :
  let ready := serve demoRequest bootState in
  world (main (inr <$> [strayRequest; garbledRequest]) ready) = world ready
  ∧ provider (main (inr <$> [strayRequest; garbledRequest]) ready) = Some demoProvider
  ∧ ∃ errs, length errs = length [strayRequest; garbledRequest]
            ∧ stdout (main (inr <$> [strayRequest; garbledRequest]) ready)
              = stdout ready ++ (errorResponse <$> errs).
Proof.
  intros ready.
  apply (main_turnedDown [strayRequest; garbledRequest] ready demoProvider).
  - reflexivity.
  - apply Forall_cons_2; [left; discriminate|].
    apply Forall_cons_2; [|apply Forall_nil_2].
    right. eexists. reflexivity.
Defined.
